(** * MedNexa front end: a shallow embedding and its verified properties

    The development follows the React client of the repository:

    - [ChartsPanel.jsx]   the vocabulary formatter [formatLabel];
    - [TrialsTable.jsx]   the search and status filter of the trials table;
    - [SafetyPanel.jsx]   the safety panel and its label-driven colouring;
    - [DashboardPage.jsx] the statistics cards, the risk card in particular;
    - [api.js]            the request issued by [analysisAPI.analyze];
    - [store.js]          the two zustand stores.

    JavaScript strings are embedded as [string]; the embedding is meant for
    strings whose code units are all below 128 (the registries' enumeration
    vocabularies are of that kind), where upper-casing, lower-casing, the
    regular-expression classes [\s], [\d], [\w] and [trim] act as defined
    below.  Numbers that are compared against thresholds are rationals:
    every finite double is one, and the comparisons are exact on them. *)

From Stdlib Require Import QArith Qabs Qround Lqa Ascii String DecimalString.
From stdpp Require Import gmap strings list.

Local Open Scope string_scope.
Set Warnings "-clear-no-such-hyp".

(* ===================================================================== *)
(** * Part I: the embedding *)
(* ===================================================================== *)

(** ** JavaScript string primitives (code units below 128) *)

Module JsString.

Definition code (c : ascii) : nat := nat_of_ascii c.

Definition is_upper (c : ascii) : bool := (65 <=? code c)%nat && (code c <=? 90)%nat.
Definition is_lower (c : ascii) : bool := (97 <=? code c)%nat && (code c <=? 122)%nat.
Definition is_digit (c : ascii) : bool := (48 <=? code c)%nat && (code c <=? 57)%nat.

(** [\s] and the characters removed by [trim]: TAB, LF, VT, FF, CR, SP. *)
Definition is_space (c : ascii) : bool :=
  ((9 <=? code c)%nat && (code c <=? 13)%nat) || (code c =? 32)%nat.

(** [\w] is [[A-Za-z0-9_]]. *)
Definition is_word (c : ascii) : bool :=
  is_upper c || is_lower c || is_digit c || Ascii.eqb c "_".

Definition is_ascii7 (c : ascii) : bool := (code c <? 128)%nat.

Definition char_upper (c : ascii) : ascii :=
  if is_lower c then ascii_of_nat (code c - 32) else c.
Definition char_lower (c : ascii) : ascii :=
  if is_upper c then ascii_of_nat (code c + 32) else c.

Fixpoint smap (f : ascii -> ascii) (s : string) : string :=
  match s with
  | EmptyString => EmptyString
  | String c s' => String (f c) (smap f s')
  end.

Fixpoint sall (p : ascii -> bool) (s : string) : bool :=
  match s with
  | EmptyString => true
  | String c s' => p c && sall p s'
  end.

Definition ascii_only (s : string) : bool := sall is_ascii7 s.

Definition toUpperCase : string -> string := smap char_upper.
Definition toLowerCase : string -> string := smap char_lower.

Fixpoint trimStart (s : string) : string :=
  match s with
  | EmptyString => EmptyString
  | String c s' => if is_space c then trimStart s' else s
  end.

Fixpoint trimEnd (s : string) : string :=
  match s with
  | EmptyString => EmptyString
  | String c s' =>
      let t := trimEnd s' in
      if is_space c && String.eqb t "" then "" else String c t
  end.

Definition trim (s : string) : string := trimEnd (trimStart s).

(** [s.startsWith(pat)] *)
Fixpoint startsWith (s pat : string) {struct pat} : bool :=
  match pat, s with
  | EmptyString, _ => true
  | String p pat', String c s' => Ascii.eqb p c && startsWith s' pat'
  | String _ _, EmptyString => false
  end.

(** [s.includes(pat)]: [pat] starts at some position of [s]. *)
Fixpoint includes (s pat : string) : bool :=
  startsWith s pat ||
  match s with
  | EmptyString => false
  | String _ s' => includes s' pat
  end.

(** [s.replace(/_/g, ' ')] *)
Definition replaceUnderscores : string -> string :=
  smap (fun c => if Ascii.eqb c "_" then " "%char else c).

(** [s.replace(/\s+/g, '_')]: every maximal run of white space becomes a
    single underscore; [in_run] tells that the previous character was
    white space already. *)
Fixpoint replaceSpaceRuns_from (in_run : bool) (s : string) : string :=
  match s with
  | EmptyString => EmptyString
  | String c s' =>
      if is_space c
      then if in_run then replaceSpaceRuns_from true s'
           else String "_" (replaceSpaceRuns_from true s')
      else String c (replaceSpaceRuns_from false s')
  end.
Definition replaceSpaceRuns : string -> string := replaceSpaceRuns_from false.

(** [s.replace(/\b\w/g, c => c.toUpperCase())]: a word character is at a
    word boundary when the character before it (in the subject string) is
    not a word character. *)
Fixpoint capitalizeWords_from (prev_word : bool) (s : string) : string :=
  match s with
  | EmptyString => EmptyString
  | String c s' =>
      String (if is_word c && negb prev_word then char_upper c else c)
             (capitalizeWords_from (is_word c) s')
  end.
Definition capitalizeWords : string -> string := capitalizeWords_from false.

(** The longest prefix of digits: what [(\d+)] captures. *)
Fixpoint takeDigits (s : string) : string :=
  match s with
  | EmptyString => EmptyString
  | String c s' => if is_digit c then String c (takeDigits s') else EmptyString
  end.

(** Case-insensitive literal at the head of [s]; the pattern is given in
    upper case, as the [i] flag canonicalises both sides by upper-casing.
    Returns what follows the literal. *)
Fixpoint strip_prefix_ci (pat s : string) {struct pat} : option string :=
  match pat, s with
  | EmptyString, _ => Some s
  | String p pat', String c s' =>
      if Ascii.eqb (char_upper c) p then strip_prefix_ci pat' s' else None
  | String _ _, EmptyString => None
  end.

End JsString.

(** ** [ChartsPanel.jsx]: [formatLabel] *)

Module ChartsPanel.
Import JsString.

(** [/PHASE\s*(\d+)/i] tried at the head of [s]: the captured digits. *)
Definition match_phase_at (s : string) : option string :=
  match strip_prefix_ci "PHASE" s with
  | Some rest =>
      let d := takeDigits (trimStart rest) in
      if String.eqb d "" then None else Some d
  | None => None
  end.

(** [name.match(/PHASE\s*(\d+)/i)]: the leftmost position that matches. *)
Fixpoint match_phase (s : string) : option string :=
  match match_phase_at s with
  | Some d => Some d
  | None =>
      match s with
      | EmptyString => None
      | String _ s' => match_phase s'
      end
  end.

(** The entries of the object literal [statusMap], in source order. *)
Definition statusEntries : list (string * string) :=
  [ ("ACTIVE_NOT_RECRUITING", "Active");
    ("NOT_YET_RECRUITING", "Not Recruiting");
    ("ENROLLING_BY_INVITATION", "By Invitation");
    ("SUSPENDED", "Suspended");
    ("TERMINATED", "Terminated");
    ("COMPLETED", "Completed");
    ("WITHDRAWN", "Withdrawn");
    ("UNKNOWN", "Unknown");
    ("RECRUITING", "Recruiting") ].

Definition statusMap : gmap string string := list_to_map statusEntries.

Definition upperName (name : string) : string := trim (toUpperCase name).

(** "Handle N/A case" *)
Definition isNotApplicable (upper : string) : bool :=
  String.eqb upper "NA" || String.eqb upper "N/A" || String.eqb upper "NOT_APPLICABLE".

(** "Handle phase names": [None] when the block falls through. *)
Definition phaseLabel (name upper : string) : option string :=
  if includes upper "PHASE" then
    if includes upper "EARLY" then Some "Early Phase 1"
    else match match_phase name with
         | Some d => Some ("Phase " ++ d)
         | None => None
         end
  else None.

(** "Handle status names": the table is looked up at the upper-cased,
    trimmed name with its white-space runs replaced by underscores.  Every
    value of the table is a non-empty string, hence truthy. *)
Definition statusLabel (upper : string) : option string :=
  statusMap !! replaceSpaceRuns upper.

(** "Default: replace underscores, capitalize first letter of each word" *)
Definition defaultLabel (name : string) : string :=
  capitalizeWords (toLowerCase (replaceUnderscores name)).

Definition formatLabel (name : string) : string :=
  if String.eqb name "" then ""
  else
    let upper := upperName name in
    if isNotApplicable upper then "N/A"
    else match phaseLabel name upper with
         | Some l => l
         | None =>
             match statusLabel upper with
             | Some l => l
             | None => defaultLabel name
             end
         end.

End ChartsPanel.

(** ** How vocabulary strings are written

    The shapes of input the properties of [formatLabel] speak about, stated
    on the strings themselves. *)

Module Vocabulary.
Import JsString.

Definition starts_nonspace (p : string) : bool :=
  match p with
  | EmptyString => false
  | String c _ => negb (is_space c)
  end.

Fixpoint ends_nonspace (p : string) : bool :=
  match p with
  | EmptyString => false
  | String c EmptyString => negb (is_space c)
  | String _ p' => ends_nonspace p'
  end.

(** [phase_at s pre d]: after the prefix [pre], the string [s] goes on
    with the word PHASE in some letter case, then white space (possibly
    none), then the digits [d]: at least one, and all there are. *)
Definition phase_at (s pre d : string) : Prop :=
  ∃ w sp post,
    s = pre ++ w ++ sp ++ d ++ post
    ∧ toUpperCase w = "PHASE"
    ∧ sall is_space sp = true
    ∧ d ≠ "" ∧ sall is_digit d = true
    ∧ takeDigits post = "".

(** A table key: words of upper-case letters joined by single
    underscores.  [after_sep] tells that a word has to start here. *)
Fixpoint key_words (after_sep : bool) (k : string) : bool :=
  match k with
  | EmptyString => negb after_sep
  | String c k' =>
      if Ascii.eqb c "_" then negb after_sep && key_words true k'
      else is_upper c && key_words false k'
  end.
Definition is_key (k : string) : bool := key_words true k.

(** [written_as k s]: [s] spells the key [k] in some letter case, each
    underscore either kept or written as a non-empty run of white
    space. *)
Inductive written_as : string → string → Prop :=
| written_end : written_as "" ""
| written_letter (c c' : ascii) (k s : string) :
    c ≠ "_"%char → char_upper c' = c → written_as k s →
    written_as (String c k) (String c' s)
| written_underscore (k s : string) :
    written_as k s → written_as (String "_" k) (String "_" s)
| written_spaces (sp k s : string) :
    sp ≠ "" → sall is_space sp = true → written_as k s →
    written_as (String "_" k) (sp ++ s).

End Vocabulary.

(** ** [TrialsTable.jsx]: the search and status filter *)

Module TrialsTable.
Import JsString.

(** The fields of a trial the table reads; the filter reads the first
    three. *)
Record Trial := mkTrial {
  nct_id : string;
  title : string;
  status : string;
  url : string;
  phase : option string;
  enrollment : option N;
  sponsor : option string;
  condition : list string;
  intervention : list string;
  country : list string }.

Definition matchesSearch (searchTerm : string) (trial : Trial) : bool :=
  includes (toLowerCase (title trial)) (toLowerCase searchTerm)
  || includes (toLowerCase (nct_id trial)) (toLowerCase searchTerm).

Definition matchesStatus (statusFilter : string) (trial : Trial) : bool :=
  String.eqb statusFilter "all" || String.eqb (status trial) statusFilter.

Definition filteredTrials (searchTerm statusFilter : string)
    (trials : list Trial) : list Trial :=
  List.filter
    (fun trial => matchesSearch searchTerm trial && matchesStatus statusFilter trial)
    trials.

(** What the component shows: the early return for a missing or empty
    list ([None] stands for [null]/[undefined]), else the filtered rows. *)
Inductive View :=
| NoTrialsFound (text : string)
| Rows (rows : list Trial).

Definition render (trials : option (list Trial))
    (searchTerm statusFilter : string) : View :=
  match trials with
  | None | Some [] => NoTrialsFound "No trials found"
  | Some ts => Rows (filteredTrials searchTerm statusFilter ts)
  end.

End TrialsTable.

(** ** JavaScript numbers, as far as the pages use them *)

Module JsNumber.

Definition Qltb (x y : Q) : bool := negb (Qle_bool y x).

(** [x || 0] on an optional number: [undefined] and [0] are falsy. *)
Definition orZero (x : option Q) : Q :=
  match x with
  | Some q => if Qeq_bool q 0 then 0%Q else q
  | None => 0%Q
  end.

Definition digits (z : Z) : string := NilEmpty.string_of_uint (N.to_uint (Z.to_N z)).

(** [x.toFixed(1)] for [|x| < 10^21]: the integer [n] nearest to [10*|x|],
    the larger one on a tie, written with one fractional digit. *)
Definition toFixed1 (x : Q) : string :=
  let n := Qfloor (Qabs x * 10 + (1 # 2))%Q in
  (if Qltb x 0 then "-" else "") ++ digits (n / 10)%Z ++ "." ++ digits (n mod 10)%Z.

End JsNumber.

(** ** The result envelope as the pages read it *)

Module Envelope.

Record SafetyProfile := mkSafety {
  risk_score : Q;
  risk_label : string;
  adverse_events_count : N;
  serious_events_count : N;
  death_reports : N;
  safety_summary : string;
  warnings : list string;
  black_box_warnings : list string }.

(** [safety = None] is the absent (or [null]) field. *)
Record Analysis := mkAnalysis {
  trials : option (list TrialsTable.Trial);
  papers : option (list string);
  safety : option SafetyProfile }.

End Envelope.

(** ** [SafetyPanel.jsx] *)

Module SafetyPanel.
Import JsString JsNumber Envelope.

Definition getRiskColor (label : string) : string :=
  let l := toLowerCase label in
  if String.eqb l "high" then "text-red-600 bg-red-50 border-red-200"
  else if String.eqb l "medium" then "text-yellow-600 bg-yellow-50 border-yellow-200"
  else if String.eqb l "low" then "text-green-600 bg-green-50 border-green-200"
  else "text-gray-600 bg-gray-50 border-gray-200".

(** The progress bar compares the label itself, without lower-casing. *)
Definition barColor (label : string) : string :=
  if String.eqb label "High" then "bg-red-600"
  else if String.eqb label "Medium" then "bg-yellow-600"
  else "bg-green-600".

(** The rendered panel, reduced to the texts and classes that depend on
    the risk assessment (the bar's width and the locale formatting of the
    counts are left out). *)
Inductive View :=
| NoSafetyData (text : string)
| RiskAssessment (cardClass scoreText labelText barClass summary : string)
    (criticalWarnings generalWarnings : list string).

Definition render (safety : option SafetyProfile) : View :=
  match safety with
  | None => NoSafetyData "No safety data available"
  | Some s =>
      RiskAssessment
        ("card border-2 " ++ getRiskColor (risk_label s))
        (toFixed1 (risk_score s))
        ("(" ++ risk_label s ++ ")")
        ("h-4 rounded-full " ++ barColor (risk_label s))
        (safety_summary s)
        (black_box_warnings s)
        (warnings s)
  end.

End SafetyPanel.

(** ** [DashboardPage.jsx] *)

Module DashboardPage.
Import JsString JsNumber Envelope.

Record StatCard := mkCard {
  card_title : string;
  card_value : string;
  card_subtitle : option string;
  card_color : string;
  card_bgColor : string;
  card_textColor : string }.

Section Stats.
(** [currentAnalysis], possibly [null]; every read goes through [?.]. *)
Variable currentAnalysis : option Analysis.

Definition safety_of : option SafetyProfile :=
  match currentAnalysis with Some a => safety a | None => None end.

Definition count {A} (l : option (list A)) : nat :=
  match l with Some xs => List.length xs | None => 0%nat end.

Definition trialsCount : nat :=
  match currentAnalysis with Some a => count (trials a) | None => 0%nat end.
Definition papersCount : nat :=
  match currentAnalysis with Some a => count (papers a) | None => 0%nat end.
Definition adverseEventsCount : N :=
  match safety_of with Some s => adverse_events_count s | None => 0%N end.
Definition riskScore : Q := orZero (risk_score <$> safety_of).
(** [risk_label || 'N/A']: the empty label is falsy as well. *)
Definition riskLabel : string :=
  match safety_of with
  | Some s => if String.eqb (risk_label s) "" then "N/A" else risk_label s
  | None => "N/A"
  end.

Definition nat_text (n : nat) : string := NilEmpty.string_of_uint (Nat.to_uint n).
Definition N_text (n : N) : string := NilEmpty.string_of_uint (N.to_uint n).

Definition riskCard : StatCard :=
  {| card_title := "Risk Score";
     card_value := toFixed1 riskScore ++ "/10";
     card_subtitle := Some riskLabel;
     card_color :=
       if Qltb riskScore 4 then "bg-green-500"
       else if Qltb riskScore 7 then "bg-yellow-500" else "bg-red-500";
     card_bgColor :=
       if Qltb riskScore 4 then "bg-green-50"
       else if Qltb riskScore 7 then "bg-yellow-50" else "bg-red-50";
     card_textColor :=
       if Qltb riskScore 4 then "text-green-600"
       else if Qltb riskScore 7 then "text-yellow-600" else "text-red-600" |}.

Definition statsCards : list StatCard :=
  [ mkCard "Clinical Trials" (nat_text trialsCount) None
      "bg-blue-500" "bg-blue-50" "text-blue-600";
    mkCard "Research Papers" (nat_text papersCount) None
      "bg-green-500" "bg-green-50" "text-green-600";
    mkCard "Adverse Events" (N_text adverseEventsCount) None
      "bg-yellow-500" "bg-yellow-50" "text-yellow-600";
    riskCard ].
End Stats.

Inductive View :=
| NoAnalysisData (title message : string)
| Loading (text : string)
| Dashboard (cards : list StatCard) (safetyTab : SafetyPanel.View).

Definition render (currentAnalysis : option Analysis) (isLoading : bool) : View :=
  match currentAnalysis, isLoading with
  | None, false =>
      NoAnalysisData "No Analysis Data"
        "Please perform a search from the home page to view results."
  | _, true => Loading "Loading analysis results..."
  | Some a, false =>
      Dashboard (statsCards currentAnalysis) (SafetyPanel.render (safety a))
  end.

End DashboardPage.

(** ** [api.js]: the analyze request *)

Module Api.

#[warnings="-register-all"]
Inductive json :=
| JNull
| JBool (b : bool)
| JNum (n : Z)
| JStr (s : string)
| JArr (items : list json)
| JObj (members : list (string * json)).

Inductive method := GET | POST.

(** An axios request configuration. *)
Record config := mkConfig {
  cfg_method : method;
  cfg_baseURL : string;
  cfg_url : string;
  cfg_headers : gmap string string;
  cfg_data : gmap string json }.

Section Client.
(** [import.meta.env.VITE_API_URL], possibly undefined. *)
Variable VITE_API_URL : option string.

Definition API_BASE_URL : string :=
  match VITE_API_URL with
  | Some u => if String.eqb u "" then "http://localhost:8000/api" else u
  | None => "http://localhost:8000/api"
  end.

(** The request interceptor hands the configuration on as it is. *)
Definition requestInterceptor (c : config) : config := c.

(** [api.post(url, data)]: the configuration that leaves the client. *)
Definition post (url : string) (data : gmap string json) : config :=
  requestInterceptor
    {| cfg_method := POST;
       cfg_baseURL := API_BASE_URL;
       cfg_url := url;
       cfg_headers := {[ "Content-Type" := "application/json" ]};
       cfg_data := data |}.

(** [analysisAPI.analyze(query, filters = {})]: [None] is the omitted
    (or [undefined]) second argument. *)
Definition analyze (query : json) (filters : option json) : config :=
  post "/analyze"
    (<["query" := query]>
     (<["filters" := default (JObj []) filters]>
      (<["include_literature" := JBool true]>
       (<["include_safety" := JBool true]>
        (<["max_trials" := JNum 50]> ∅))))).
End Client.

End Api.

(** ** The default bound of the run contract *)

Module RunContract.
(** Modelled from the spec: the pipeline entry point [run] and its filter
    type live in the back end, which is not part of the sources at hand;
    the spec gives the option fields and the default bound of the result
    count. *)
Definition default_max_trials : Z := 50.

(** Modelled from the spec: the three options of [run] (literature, safety,
    result bound), which the back end is not at hand to name; they are
    given here under the names they have on the wire. *)
Definition option_fields : gset string :=
  {[ "include_literature"; "include_safety"; "max_trials" ]}.
End RunContract.

(** ** The risk label of the scorer *)

Module RiskScorer.
Import JsNumber.
(** Modelled from the spec: the scorer is back-end code that is not part
    of the sources at hand; "low is score < 4.0, high is score >= 7.0,
    medium otherwise". *)
Definition risk_label_of (score : Q) : string :=
  if Qltb score 4 then "Low"
  else if Qle_bool 7 score then "High"
  else "Medium".
End RiskScorer.

(** ** [store.js]: the analysis store, on a heap

    Analyses are JavaScript objects that the store holds by reference, and
    zustand's [set] builds a new state object from the old one and a partial
    update.  The heap makes the sharing explicit: a store action is a
    computation that may read and allocate, and fails on a type error. *)

Module Heap.

Definition loc := positive.

Inductive value :=
| VUndefined
| VNull
| VBool (b : bool)
| VNum (q : Q)
| VStr (s : string)
| VRef (l : loc).

Inductive cell :=
| Obj (fields : gmap string value)
| Arr (elems : list value).

Abbreviation heap := (gmap loc cell).

(** Computations over the heap; [None] is a thrown [TypeError]. *)
Definition M (A : Type) : Type := heap → option (A * heap).

Global Instance M_ret : MRet M := λ A a h, Some (a, h).
Global Instance M_bind : MBind M := λ A B f m h,
  match m h with
  | Some (a, h') => f a h'
  | None => None
  end.

Definition throw {A} : M A := λ _, None.

Definition alloc (c : cell) : M loc := λ h,
  let l := fresh (dom h) in Some (l, <[l := c]> h).

Definition load (l : loc) : M cell := λ h,
  match h !! l with
  | Some c => Some (c, h)
  | None => None
  end.

Definition load_obj (v : value) : M (gmap string value) :=
  match v with
  | VRef l => c ← load l; match c with Obj f => mret f | Arr _ => throw end
  | _ => throw
  end.

Definition load_arr (v : value) : M (list value) :=
  match v with
  | VRef l => c ← load l; match c with Arr xs => mret xs | Obj _ => throw end
  | _ => throw
  end.

(** [o.f] on an object already read: a missing property is [undefined]. *)
Definition field (f : string) (o : gmap string value) : value :=
  default VUndefined (o !! f).

(** Total correctness: from [h] the computation [m] returns, and its
    result and final heap satisfy [Q]. *)
Definition returns {A} (m : M A) (h : heap) (Q : A → heap → Prop) : Prop :=
  ∃ a h', m h = Some (a, h') ∧ Q a h'.

End Heap.

Module AnalysisStore.
Import Heap.

(** zustand's [set(partial)]: [Object.assign({}, state, partial)] becomes
    the state; the union of maps is left-biased, so [partial] wins. *)
Definition set (partial : gmap string value) (state : loc) : M loc :=
  old ← load_obj (VRef state);
  alloc (Obj (partial ∪ old)).

(** The initial state object of [create]; the action closures, which no
    update ever replaces, are not kept among the fields. *)
Definition create : M loc :=
  history ← alloc (Arr []);
  alloc (Obj (<["currentAnalysis" := VNull]>
              (<["isLoading" := VBool false]>
               (<["error" := VNull]>
                (<["history" := VRef history]> ∅))))).

Definition setAnalysis (analysis : value) (state : loc) : M loc :=
  st ← load_obj (VRef state);
  old ← load_arr (field "history" st);
  sliced ← alloc (Arr (take 9 old));            (* state.history.slice(0, 9) *)
  kept ← load_arr (VRef sliced);
  history ← alloc (Arr (analysis :: kept));     (* [analysis, ...sliced] *)
  set (<["currentAnalysis" := analysis]> (<["history" := VRef history]> ∅)) state.

Definition setLoading (loading : value) : loc → M loc :=
  set {[ "isLoading" := loading ]}.

Definition setError (error : value) : loc → M loc :=
  set {[ "error" := error ]}.

Definition clearError : loc → M loc :=
  set {[ "error" := VNull ]}.

Definition clearAnalysis : loc → M loc :=
  set {[ "currentAnalysis" := VNull ]}.

Definition clearHistory (state : loc) : M loc :=
  history ← alloc (Arr []);
  set {[ "history" := VRef history ]} state.

Inductive action :=
| SetAnalysis (analysis : value)
| SetLoading (loading : value)
| SetError (error : value)
| ClearError
| ClearAnalysis
| ClearHistory.

Definition dispatch (a : action) : loc → M loc :=
  match a with
  | SetAnalysis analysis => setAnalysis analysis
  | SetLoading loading => setLoading loading
  | SetError error => setError error
  | ClearError => clearError
  | ClearAnalysis => clearAnalysis
  | ClearHistory => clearHistory
  end.

(** The history array an action leaves, as a list. *)
Definition history_after (a : action) (old : list value) : list value :=
  match a with
  | SetAnalysis analysis => analysis :: take 9 old
  | ClearHistory => []
  | _ => old
  end.

(** The shape every action relies on and re-establishes: the state is an
    object whose [history] field refers to an array. *)
Definition shaped (h : heap) (state : loc) (hist : list value) : Prop :=
  ∃ f hl, h !! state = Some (Obj f) ∧ f !! "history" = Some (VRef hl)
          ∧ h !! hl = Some (Arr hist).

(** The store: the heap and the state object the store's closure holds. *)
Record world := mkWorld { w_heap : heap; w_state : loc }.

Definition step (a : action) (w : world) : option world :=
  match dispatch a (w_state w) (w_heap w) with
  | Some (st, h) => Some (mkWorld h st)
  | None => None
  end.

(** What happens around the store: an action of the store, or client code
    that builds a new object (a parsed response, say). *)
Inductive event :=
| Act (a : action)
| New (c : cell).

Definition occur (e : event) (w : world) : option world :=
  match e with
  | Act a => step a w
  | New c =>
      match alloc c (w_heap w) with
      | Some (_, h) => Some (mkWorld h (w_state w))
      | None => None
      end
  end.

Fixpoint run (es : list event) (w : world) : option world :=
  match es with
  | [] => Some w
  | e :: es' =>
      match occur e w with
      | Some w' => run es' w'
      | None => None
      end
  end.

Definition initial : option world :=
  match create ∅ with
  | Some (st, h) => Some (mkWorld h st)
  | None => None
  end.

(** Readers of the current state, as a component selecting from the store. *)
Definition state_fields (w : world) : option (gmap string value) :=
  match load_obj (VRef (w_state w)) (w_heap w) with
  | Some (f, _) => Some f
  | None => None
  end.

Definition history (w : world) : option (list value) :=
  match state_fields w with
  | Some f =>
      match load_arr (field "history" f) (w_heap w) with
      | Some (xs, _) => Some xs
      | None => None
      end
  | None => None
  end.

Definition currentAnalysis (w : world) : option value :=
  match state_fields w with
  | Some f => Some (field "currentAnalysis" f)
  | None => None
  end.

End AnalysisStore.

(** ** [store.js]: the UI store

    Nothing here is shared by reference with anything else, so the state is
    a plain record and an action maps the old state to the new one. *)

Module UIStore.

Record state := mkState {
  sidebarOpen : bool;
  activeTab : string;
  selectedTrials : list string;
  filters : list (string * string) }.

Definition initial : state := mkState true "trials" [] [].

Definition toggleSidebar (st : state) : state :=
  mkState (negb (sidebarOpen st)) (activeTab st) (selectedTrials st) (filters st).

Definition setActiveTab (tab : string) (st : state) : state :=
  mkState (sidebarOpen st) tab (selectedTrials st) (filters st).

Definition setSelectedTrials (trials : list string) (st : state) : state :=
  mkState (sidebarOpen st) (activeTab st) trials (filters st).

(** [xs.includes(x)] *)
Definition includes (xs : list string) (x : string) : bool :=
  List.existsb (String.eqb x) xs.

Definition toggled (trialId : string) (selected : list string) : list string :=
  if includes selected trialId
  then List.filter (fun id => negb (String.eqb id trialId)) selected
  else selected ++ [trialId].

Definition toggleTrialSelection (trialId : string) (st : state) : state :=
  mkState (sidebarOpen st) (activeTab st)
    (toggled trialId (selectedTrials st)) (filters st).

Definition setFilters (fs : list (string * string)) (st : state) : state :=
  mkState (sidebarOpen st) (activeTab st) (selectedTrials st) fs.

Definition clearFilters (st : state) : state :=
  mkState (sidebarOpen st) (activeTab st) (selectedTrials st) [].

End UIStore.

(** ** [store.js]: the analysis store as its users read it

    The four state fields of the store, read off the heap, and each action
    as the update of those fields that its source line writes down. *)

Module StoreModel.
Import Heap AnalysisStore.

Record snapshot := mkSnapshot {
  s_currentAnalysis : value;
  s_isLoading : value;
  s_error : value;
  s_history : list value }.

Definition snapshot_of (w : world) : option snapshot :=
  match state_fields w, history w with
  | Some f, Some hist =>
      Some (mkSnapshot (field "currentAnalysis" f) (field "isLoading" f)
              (field "error" f) hist)
  | _, _ => None
  end.

(** The partial state each action hands to [set], merged into the fields. *)
Definition apply (a : action) (s : snapshot) : snapshot :=
  match a with
  | SetAnalysis analysis =>
      mkSnapshot analysis (s_isLoading s) (s_error s)
        (analysis :: take 9 (s_history s))
  | SetLoading loading =>
      mkSnapshot (s_currentAnalysis s) loading (s_error s) (s_history s)
  | SetError error =>
      mkSnapshot (s_currentAnalysis s) (s_isLoading s) error (s_history s)
  | ClearError =>
      mkSnapshot (s_currentAnalysis s) (s_isLoading s) VNull (s_history s)
  | ClearAnalysis =>
      mkSnapshot VNull (s_isLoading s) (s_error s) (s_history s)
  | ClearHistory =>
      mkSnapshot (s_currentAnalysis s) (s_isLoading s) (s_error s) []
  end.

(** The analyses stored since the last [clearHistory], newest first. *)
Fixpoint recent_from (acc : list value) (es : list event) : list value :=
  match es with
  | [] => acc
  | Act (SetAnalysis analysis) :: es' => recent_from (analysis :: acc) es'
  | Act ClearHistory :: es' => recent_from [] es'
  | _ :: es' => recent_from acc es'
  end.
Definition recent : list event → list value := recent_from [].

End StoreModel.

(** ** [HomePage.jsx]: [handleSearch] *)

Module HomePage.
Import JsString Heap AnalysisStore.







End HomePage.


(** ** [store.js]: sequences of toggles on the UI store *)

Module UIStoreRuns.
Import UIStore.

(** [toggleTrialSelection] called for each id of [ids] in turn. *)
Definition toggle_all (ids : list string) (st : state) : state :=
  fold_left (fun st trialId => toggleTrialSelection trialId st) ids st.

(** How often [x] occurs in [ids]. *)
Definition occurrences (x : string) (ids : list string) : nat :=
  List.length (List.filter (String.eqb x) ids).

End UIStoreRuns.

(** ** [TrialsTable.jsx]: the status options and the cards' details *)

Module TrialsTableView.
Import JsString TrialsTable.

(** [[...new Set(xs)]]: the distinct elements of [xs], in the order of
    their first occurrence; [seen] holds the elements already in the set. *)
Fixpoint distinct_from (seen xs : list string) : list string :=
  match xs with
  | [] => []
  | x :: xs' =>
      if List.existsb (String.eqb x) seen then distinct_from seen xs'
      else x :: distinct_from (x :: seen) xs'
  end.
Definition distinct : list string → list string := distinct_from [].

(** [['all', ...new Set(trials.map((t) => t.status))]] *)
Definition statuses (trials : list Trial) : list string :=
  "all" :: distinct (List.map status trials).

(** A list shown on a card, as chips (conditions, interventions) or as
    joined text (countries): nothing for the empty list, else the first
    [n] entries ([xs.slice(0, n)]) and, when [xs.length > n], the note
    "+k more" with [k = xs.length - n]. *)
Definition chips (n : nat) (xs : list string) : option (list string * option nat) :=
  match xs with
  | [] => None
  | _ => Some (take n xs,
               if (n <? List.length xs)%nat then Some (List.length xs - n)%nat
               else None)
  end.

Definition conditionChips (t : Trial) := chips 3 (condition t).
Definition interventionChips (t : Trial) := chips 3 (intervention t).
Definition countryChips (t : Trial) := chips 5 (country t).

(** [trial.phase.replace('_', ' ')]: with a string as pattern, only the
    first occurrence is replaced. *)
Fixpoint replaceFirstUnderscore (s : string) : string :=
  match s with
  | EmptyString => EmptyString
  | String c s' =>
      if Ascii.eqb c "_" then String " " s'
      else String c (replaceFirstUnderscore s')
  end.

(** How many underscores a string has. *)
Fixpoint underscores (s : string) : nat :=
  match s with
  | EmptyString => 0
  | String c s' => (if Ascii.eqb c "_" then 1 else 0) + underscores s'
  end.

End TrialsTableView.


(** ** [PapersTable.jsx]: the search *)

Module PapersTable.
Import JsString.

Record Paper := mkPaper {
  pmid : option string;
  title : string;
  authors : list string;
  journal : option string;
  publication_date : option string;
  url : string;
  abstract : option string;
  keywords : list string }.

Definition matches (searchTerm : string) (paper : Paper) : bool :=
  includes (toLowerCase (title paper)) (toLowerCase searchTerm)
  || List.existsb
       (fun author => includes (toLowerCase author) (toLowerCase searchTerm))
       (authors paper).

Definition filteredPapers (searchTerm : string) (papers : list Paper) : list Paper :=
  List.filter (matches searchTerm) papers.

Inductive View :=
| NoPublications (text : string)
| Rows (rows : list Paper).

Definition render (papers : option (list Paper)) (searchTerm : string) : View :=
  match papers with
  | None | Some [] => NoPublications "No publications found"
  | Some ps => Rows (filteredPapers searchTerm ps)
  end.

End PapersTable.

(** ** [ReportPage.jsx]: the name of the downloaded file *)

Module ReportPage.
Import JsString.

(** [`${reportTitle.replace(/\s+/g, '_')}.pdf`] *)
Definition downloadName (reportTitle : string) : string :=
  replaceSpaceRuns reportTitle ++ ".pdf".

End ReportPage.

(** ** [ChartsPanel.jsx]: the colours of the pie slices *)

Module ChartColors.

Definition COLORS : list string :=
  [ "#3b82f6"; "#10b981"; "#f59e0b"; "#ef4444";
    "#8b5cf6"; "#ec4899"; "#14b8a6"; "#f97316" ].

(** [COLORS[index % COLORS.length]]; [None] would be [undefined]. *)
Definition cellColor (index : nat) : option string :=
  COLORS !! (index mod List.length COLORS)%nat.

End ChartColors.

(** ** [Layout.jsx]: the navigation links *)

Module Layout.

Record item := mkItem { item_name : string; item_href : string }.

Definition navigation : list item :=
  [ mkItem "Home" "/"; mkItem "Dashboard" "/dashboard";
    mkItem "Compare" "/compare"; mkItem "Report" "/report" ].

(** [location.pathname === item.href] *)
Definition isActive (pathname : string) (i : item) : bool :=
  String.eqb pathname (item_href i).

Definition linkClass (pathname : string) (i : item) : string :=
  "inline-flex items-center px-1 pt-1 border-b-2 text-sm font-medium "
  ++ (if isActive pathname i then "border-primary-500 text-gray-900"
      else "border-transparent text-gray-500 hover:border-gray-300 hover:text-gray-700").

End Layout.

(** ** [Alert.jsx] *)

Module Alert.

Record style := mkStyle {
  bg : string; border : string; text : string;
  icon : string; iconColor : string }.

Definition styles : gmap string style :=
  list_to_map
    [ ("info", mkStyle "bg-blue-50" "border-blue-200" "text-blue-800"
                 "InformationCircleIcon" "text-blue-400");
      ("success", mkStyle "bg-green-50" "border-green-200" "text-green-800"
                    "CheckCircleIcon" "text-green-400");
      ("error", mkStyle "bg-red-50" "border-red-200" "text-red-800"
                  "XCircleIcon" "text-red-400") ].

Record view := mkView {
  boxClass : string;
  iconName : string;
  iconClass : string;
  titleLine : option (string * string);
  messageLine : option (string * string);
  closeButton : option string }.

(** [{x && ...}] for a string [x]: shown for a non-empty string. *)
Definition shown (x : option string) : option string :=
  match x with
  | Some s => if String.eqb s "" then None else Some s
  | None => None
  end.

(** The component; [type = None] is the omitted property, which defaults
    to ['info'].  [None] as result: nothing is rendered, because
    [styles[type]] is no style ([style.icon] of [undefined] throws, and
    for a name that only [Object.prototype] knows the icon is [undefined],
    which React refuses as an element type). *)
Definition render (type title message : option string) (onClose : bool)
    : option view :=
  match styles !! default "info" type with
  | Some st =>
      Some {| boxClass := bg st ++ " " ++ border st ++ " border rounded-lg p-4";
              iconName := icon st;
              iconClass := "h-5 w-5 " ++ iconColor st;
              titleLine :=
                (fun t => ("text-sm font-medium " ++ text st, t)) <$> shown title;
              messageLine :=
                (fun m => ("mt-2 text-sm " ++ text st, m)) <$> shown message;
              closeButton :=
                if onClose
                then Some ("inline-flex rounded-md " ++ bg st ++ " p-1.5 "
                           ++ text st
                           ++ " hover:bg-opacity-75 focus:outline-none focus:ring-2 focus:ring-offset-2")
                else None |}
  | None => None
  end.

End Alert.

(** ** [api.js]: comparing interventions *)

Module ApiCompare.
Import Api.

(** [xs.join(sep)] on strings *)
Fixpoint join (sep : string) (xs : list string) : string :=
  match xs with
  | [] => ""
  | [x] => x
  | x :: rest => x ++ sep ++ join sep rest
  end.

(** The configuration of a GET request with query parameters. *)
Record get_config := mkGet {
  get_url : string;
  get_params : gmap string json }.

(** [comparisonAPI.compareInterventions(interventions, condition = null)] *)
Definition compareInterventions (interventions : list string)
    (condition : option json) : get_config :=
  {| get_url := "/compare-interventions";
     get_params :=
       <["interventions" := JStr (join "," interventions)]>
       (<["condition" := default JNull condition]> ∅) |}.

Definition comma_free (s : string) : bool :=
  JsString.sall (fun c => negb (Ascii.eqb c ",")) s.

End ApiCompare.


(* ===================================================================== *)
(** * Part II: properties *)
(* ===================================================================== *)

(** ** The UI store: toggling a trial *)

Section ToggleSelection.
Import UIStore.

Lemma includes_elem_of (xs : list string) (x : string) :
  includes xs x = true ↔ x ∈ xs.
Proof.
  unfold includes. rewrite existsb_exists. split.
  - intros (y & Hy & He). apply String.eqb_eq in He. subst y.
    by apply list_elem_of_In.
  - intros Hx. exists x. split; [by apply list_elem_of_In | apply String.eqb_refl].
Qed.

Lemma elem_of_without (xs : list string) (t x : string) :
  x ∈ List.filter (fun id => negb (String.eqb id t)) xs ↔ x ∈ xs ∧ x ≠ t.
Proof.
  rewrite !list_elem_of_In, filter_In, negb_true_iff.
  split; intros [Hin Hne]; split; try done.
  - intros ->. by rewrite String.eqb_refl in Hne.
  - by apply String.eqb_neq.
Qed.

Lemma elem_of_toggled (xs : list string) (t x : string) :
  x ∈ toggled t xs ↔ (x ∈ xs ∧ x ≠ t) ∨ (x = t ∧ t ∉ xs).
Proof.
  unfold toggled. destruct (includes xs t) eqn:Hinc.
  - apply includes_elem_of in Hinc. rewrite elem_of_without. naive_solver.
  - assert (t ∉ xs) as Hnot.
    { intros Hin. apply includes_elem_of in Hin. congruence. }
    rewrite elem_of_app, list_elem_of_singleton.
    split; [intros [Hin | ->] | intros [[Hin _] | [-> _]]]; auto.
    left. split; [done | intros ->; done].
Qed.

(** C9: [toggleTrialSelection] flips the membership of the trial id, and
    toggling the same id twice gives a selection with the members of the
    original one. *)
Theorem C9_toggle_membership (st : state) (t : string) :
  (t ∈ selectedTrials (toggleTrialSelection t st) ↔ t ∉ selectedTrials st)
  ∧ (∀ x, x ∈ selectedTrials (toggleTrialSelection t (toggleTrialSelection t st))
          ↔ x ∈ selectedTrials st).
Proof.
  destruct st as [sb tab sel fs]. simpl. split.
  - rewrite elem_of_toggled. naive_solver.
  - intros x. rewrite !elem_of_toggled.
    destruct (decide (x = t)) as [-> | Hne].
    + destruct (decide (t ∈ sel)); naive_solver.
    + naive_solver.
Qed.

(** The other fields of the UI state are left alone. *)
Lemma toggle_frame (st : state) (t : string) :
  let st' := toggleTrialSelection t st in
  sidebarOpen st' = sidebarOpen st ∧ activeTab st' = activeTab st
  ∧ filters st' = filters st.
Proof. by destruct st. Qed.

(** When the id was absent, the double toggle gives back the very list;
    when it was present, its occurrences are gathered at the end. *)
Lemma toggled_twice_absent (xs : list string) (t : string) :
  t ∉ xs → toggled t (toggled t xs) = xs.
Proof.
  intros Hnot. unfold toggled at 2.
  destruct (includes xs t) eqn:Hinc.
  { apply includes_elem_of in Hinc. done. }
  unfold toggled.
  assert (includes (xs ++ [t]) t = true) as ->.
  { apply includes_elem_of. set_solver. }
  rewrite List.filter_app. simpl. rewrite String.eqb_refl. simpl.
  rewrite app_nil_r. clear Hinc.
  induction xs as [|y ys IH]; [done|]. simpl.
  apply not_elem_of_cons in Hnot as [Hne Hnot].
  assert (String.eqb y t = false) as -> by (apply String.eqb_neq; congruence).
  simpl. by rewrite IH.
Qed.

End ToggleSelection.

(** ** The trials table: filtering *)

Section TrialFilter.
Import JsString TrialsTable.

Lemma includes_empty (s : string) : includes s "" = true.
Proof. by destruct s. Qed.

Lemma filter_sublist {A} (f : A → bool) (xs : list A) :
  List.filter f xs `sublist_of` xs.
Proof.
  induction xs as [|x xs IH]; simpl; [constructor|].
  destruct (f x); by constructor.
Qed.

Lemma filter_all {A} (f : A → bool) (xs : list A) :
  (∀ x, f x = true) → List.filter f xs = xs.
Proof.
  intros Hall. induction xs as [|x xs IH]; simpl; [done|].
  by rewrite Hall, IH.
Qed.

(** C10: with the empty search term and the status filter ['all'] the
    filter is the identity, and for every search term and status filter
    the filtered list is a subsequence of the input, in the input's
    order. *)
Theorem C10_filter_identity_and_subsequence (trials : list Trial) :
  filteredTrials "" "all" trials = trials
  ∧ ∀ searchTerm statusFilter,
      filteredTrials searchTerm statusFilter trials `sublist_of` trials.
Proof.
  split.
  - apply filter_all. intros t. unfold matchesSearch, matchesStatus.
    change (toLowerCase "") with "". by rewrite includes_empty.
  - intros searchTerm statusFilter. apply filter_sublist.
Qed.

(** Every row shown satisfies both conditions of the filter. *)
Lemma filteredTrials_sound (searchTerm statusFilter : string)
    (trials : list Trial) (t : Trial) :
  t ∈ filteredTrials searchTerm statusFilter trials →
  t ∈ trials ∧ matchesSearch searchTerm t = true
  ∧ matchesStatus statusFilter t = true.
Proof.
  unfold filteredTrials. rewrite !list_elem_of_In, filter_In, andb_true_iff.
  tauto.
Qed.

End TrialFilter.

(** ** The analyze request *)

Section AnalyzeRequest.
Import Api.

(** C7: whatever the query and the filters, the request that
    [analysisAPI.analyze] issues is a POST to [/analyze] whose body carries
    the query, the filters and exactly the three option fields, with
    [include_literature] and [include_safety] true and [max_trials] the
    default bound 50. *)
Theorem C7_analyze_request (env : option string) (query : json)
    (filters : option json) :
  let c := analyze env query filters in
  cfg_method c = POST ∧ cfg_url c = "/analyze"
  ∧ cfg_data c !! "query" = Some query
  ∧ cfg_data c !! "filters" = Some (default (JObj []) filters)
  ∧ cfg_data c !! "include_literature" = Some (JBool true)
  ∧ cfg_data c !! "include_safety" = Some (JBool true)
  ∧ cfg_data c !! "max_trials" = Some (JNum RunContract.default_max_trials)
  ∧ dom (cfg_data c) ∖ {[ "query"; "filters" ]} = RunContract.option_fields.
Proof.
  simpl. repeat split; reflexivity.
Qed.

End AnalyzeRequest.

(** ** The analysis store *)

Section HeapLogic.
Import Heap.

Lemma returns_ret {A} (a : A) (h : heap) (Q : A → heap → Prop) :
  Q a h → returns (mret a) h Q.
Proof. intros HQ. by exists a, h. Qed.

Lemma returns_bind {A B} (m : M A) (f : A → M B) (h : heap)
    (Q : B → heap → Prop) :
  returns m h (λ a h1, returns (f a) h1 Q) → returns (m ≫= f) h Q.
Proof.
  intros (a & h1 & Hm & b & h2 & Hf & HQ). exists b, h2. split; [|done].
  unfold mbind, M_bind. by rewrite Hm.
Qed.

Lemma returns_alloc (c : cell) (h : heap) (Q : loc → heap → Prop) :
  (∀ l, h !! l = None → Q l (<[l := c]> h)) → returns (alloc c) h Q.
Proof.
  intros HQ. exists (fresh (dom h)), (<[fresh (dom h) := c]> h).
  split; [done|]. apply HQ, not_elem_of_dom, is_fresh.
Qed.

Lemma returns_load_obj (l : loc) (f : gmap string value) (h : heap)
    (Q : gmap string value → heap → Prop) :
  h !! l = Some (Obj f) → Q f h → returns (load_obj (VRef l)) h Q.
Proof.
  intros Hl HQ. exists f, h. split; [|done].
  unfold load_obj, mbind, M_bind, load. by rewrite Hl.
Qed.

Lemma returns_load_arr (l : loc) (xs : list value) (h : heap)
    (Q : list value → heap → Prop) :
  h !! l = Some (Arr xs) → Q xs h → returns (load_arr (VRef l)) h Q.
Proof.
  intros Hl HQ. exists xs, h. split; [|done].
  unfold load_arr, mbind, M_bind, load. by rewrite Hl.
Qed.

Lemma fresh_ne (h : heap) (l l' : loc) (c : cell) :
  h !! l = None → h !! l' = Some c → l ≠ l'.
Proof. intros Hn Hs ->. congruence. Qed.

End HeapLogic.

Section AnalysisStoreProofs.
Import Heap AnalysisStore.

Lemma set_returns (partial f : gmap string value) (state : loc) (h : heap)
    (Q : loc → heap → Prop) :
  h !! state = Some (Obj f) →
  (∀ l, h !! l = None → Q l (<[l := Obj (partial ∪ f)]> h)) →
  returns (set partial state) h Q.
Proof.
  intros Hst HQ. unfold set. apply returns_bind.
  eapply returns_load_obj; [done|]. by apply returns_alloc.
Qed.

(** Every action returns; it only adds cells, its new state object is a
    new cell, and the new state has the shape again. *)
Lemma dispatch_returns (a : action) (state : loc) (h : heap)
    (hist : list value) :
  shaped h state hist →
  returns (dispatch a state) h (λ state' h',
    h ⊆ h' ∧ h !! state' = None ∧ shaped h' state' (history_after a hist)).
Proof.
  intros (f & hl & Hst & Hf & Hhl).
  assert (∀ (partial : gmap string value),
    partial !! "history" = None →
    returns (set partial state) h (λ state' h',
      h ⊆ h' ∧ h !! state' = None ∧ shaped h' state' hist)) as Hkeep.
  { intros partial Hp. eapply set_returns; [done|]. intros l Hl.
    split; [by apply insert_subseteq|]. split; [done|].
    exists (partial ∪ f), hl. rewrite lookup_insert_eq.
    split; [done|]. split.
    - by rewrite lookup_union_r.
    - rewrite lookup_insert_ne; [done|]. by eapply fresh_ne. }
  destruct a as [analysis | loading | error | | |]; simpl;
    try (apply Hkeep; done).
  - (* setAnalysis *)
    unfold setAnalysis. apply returns_bind.
    eapply returns_load_obj; [done|]. apply returns_bind.
    unfold field. rewrite Hf. simpl.
    eapply returns_load_arr; [done|]. apply returns_bind.
    apply returns_alloc. intros l1 Hl1. apply returns_bind.
    eapply returns_load_arr; [apply lookup_insert_eq|]. apply returns_bind.
    apply returns_alloc. intros l2 Hl2.
    set (h1 := <[l1 := Arr (take 9 hist)]> h) in *.
    set (h2 := <[l2 := Arr (analysis :: take 9 hist)]> h1).
    assert (h ⊆ h2) as Hsub.
    { transitivity h1; by apply insert_subseteq. }
    eapply set_returns.
    { eapply lookup_weaken; done. }
    intros l3 Hl3. split.
    { transitivity h2; [done | by apply insert_subseteq]. }
    split.
    { eapply lookup_weaken_None; done. }
    eexists _, l2. rewrite lookup_insert_eq. split; [done|]. split.
    + apply lookup_union_Some_l. by simplify_map_eq.
    + rewrite lookup_insert_ne.
      * apply lookup_insert_eq.
      * eapply fresh_ne; [done|]. apply lookup_insert_eq.
  - (* clearHistory *)
    unfold clearHistory. apply returns_bind.
    apply returns_alloc. intros l1 Hl1.
    eapply set_returns.
    { rewrite lookup_insert_ne; [done|]. by eapply fresh_ne. }
    intros l2 Hl2. split.
    { transitivity (<[l1 := Arr []]> h); by apply insert_subseteq. }
    split.
    { eapply lookup_weaken_None; [done|]. by apply insert_subseteq. }
    eexists _, l1. rewrite lookup_insert_eq. split; [done|]. split.
    + apply lookup_union_Some_l. by simplify_map_eq.
    + rewrite lookup_insert_ne.
      * apply lookup_insert_eq.
      * eapply fresh_ne; [done|]. apply lookup_insert_eq.
Qed.

Lemma shaped_mono (h h' : heap) (state : loc) (hist : list value) :
  h ⊆ h' → shaped h state hist → shaped h' state hist.
Proof.
  intros Hsub (f & hl & Hst & Hf & Hhl). exists f, hl.
  eauto using lookup_weaken.
Qed.

(** Reading the history through the store is reading the array the state
    object refers to. *)
Lemma history_shaped (w : world) (hist : list value) :
  history w = Some hist ↔ shaped (w_heap w) (w_state w) hist.
Proof.
  unfold history, state_fields, shaped, load_obj, load_arr, field, load,
    mbind, M_bind, mret, M_ret.
  split.
  - destruct (w_heap w !! w_state w) as [[f|xs]|] eqn:Hst; try done.
    destruct (f !! "history") as [[| | | | |hl]|] eqn:Hf; simpl; try done.
    destruct (w_heap w !! hl) as [[g|xs]|] eqn:Hhl; try done.
    intros [= <-]. by exists f, hl.
  - intros (f & hl & -> & -> & Hhl). simpl. by rewrite Hhl.
Qed.

Lemma step_returns (a : action) (w : world) (hist : list value) :
  history w = Some hist →
  ∃ w', step a w = Some w'
        ∧ w_heap w ⊆ w_heap w'
        ∧ w_heap w !! w_state w' = None
        ∧ history w' = Some (history_after a hist).
Proof.
  intros Hh%history_shaped.
  destruct (dispatch_returns a _ _ _ Hh) as (st & h' & Hd & Hsub & Hnew & Hsh).
  exists (mkWorld h' st). unfold step. rewrite Hd.
  repeat split; try done. by apply history_shaped.
Qed.

Lemma occur_returns (e : event) (w : world) (hist : list value) :
  history w = Some hist → (List.length hist ≤ 10)%nat →
  ∃ w' hist', occur e w = Some w' ∧ history w' = Some hist'
              ∧ (List.length hist' ≤ 10)%nat.
Proof.
  intros Hh Hlen. destruct e as [a | c]; simpl.
  - destruct (step_returns a w hist Hh) as (w' & Hs & _ & _ & Hh').
    exists w', (history_after a hist). repeat split; try done.
    destruct a; simpl; try done; [|lia].
    rewrite length_take. lia.
  - eexists _, hist. split; [done|]. split; [|done].
    apply history_shaped. simpl. eapply shaped_mono.
    + apply insert_subseteq, not_elem_of_dom, is_fresh.
    + by apply history_shaped.
Qed.

Lemma run_returns (es : list event) (w : world) (hist : list value) :
  history w = Some hist → (List.length hist ≤ 10)%nat →
  ∃ w' hist', run es w = Some w' ∧ history w' = Some hist'
              ∧ (List.length hist' ≤ 10)%nat.
Proof.
  revert w hist. induction es as [|e es IH]; intros w hist Hh Hlen; simpl.
  - by exists w, hist.
  - destruct (occur_returns e w hist Hh Hlen) as (w1 & hist1 & -> & Hh1 & Hlen1).
    by eapply IH.
Qed.

Lemma initial_history :
  ∃ w0, initial = Some w0 ∧ history w0 = Some [].
Proof. eexists. split; reflexivity. Qed.

(** C6: every action of the analysis store returns, builds a new state
    object, and leaves every cell that existed before as it was; so no
    field of an analysis that the store (or anything else) already holds
    is changed by storing another analysis. *)
Theorem C6_store_actions_frame (a : action) (w : world) :
  is_Some (history w) →
  ∃ w', step a w = Some w'
        ∧ w_heap w !! w_state w' = None
        ∧ ∀ l c, w_heap w !! l = Some c → w_heap w' !! l = Some c.
Proof.
  intros [hist Hh].
  destruct (step_returns a w hist Hh) as (w' & Hs & Hsub & Hnew & _).
  exists w'. repeat split; try done.
  intros l c Hl. by eapply lookup_weaken.
Qed.

Lemma C6_store_actions_frame_witness :
  let w := mkWorld (<[1%positive := Obj {[ "trials" := VNull ]}]>
                    (<[2%positive := Arr [VRef 1%positive]]>
                     (<[3%positive := Obj (<["currentAnalysis" := VRef 1%positive]>
                                           (<["history" := VRef 2%positive]> ∅))]> ∅)))
                   3%positive in
  is_Some (history w)
  ∧ ∃ w', step (SetAnalysis VNull) w = Some w'
        ∧ w_heap w !! w_state w' = None
        ∧ ∀ l c, w_heap w !! l = Some c → w_heap w' !! l = Some c.
Proof.
  intros w.
  assert (is_Some (history w)) as Hw by (eexists; vm_compute; reflexivity).
  split; [exact Hw | exact (C6_store_actions_frame (SetAnalysis VNull) w Hw)].
Defined.

(** C8: from the initial state, every sequence of store actions (with any
    allocations by client code in between) runs to a state whose history
    holds at most 10 entries; and from such a state [setAnalysis(a)]
    leaves a history whose head is [a], followed by the nine most recent
    earlier entries. *)
Theorem C8_history_bounded (es : list event) :
  ∃ w hist,
    initial ≫= run es = Some w
    ∧ history w = Some hist
    ∧ (List.length hist ≤ 10)%nat
    ∧ ∀ a, ∃ w', step (SetAnalysis a) w = Some w'
                 ∧ history w' = Some (a :: take 9 hist).
Proof.
  destruct initial_history as (w0 & Hi & H0).
  destruct (run_returns es w0 [] H0) as (w & hist & Hr & Hh & Hlen).
  { simpl. lia. }
  exists w, hist. rewrite Hi. simpl. repeat split; try done.
  intros a. destruct (step_returns (SetAnalysis a) w hist Hh)
    as (w' & Hs & _ & _ & Hh').
  by exists w'.
Qed.

End AnalysisStoreProofs.

(** ** Risk presentation: the safety panel and the dashboard's risk card *)

Section RiskPresentation.
Import JsNumber Envelope RiskScorer.

Lemma Qltb_lt (x y : Q) : Qltb x y = true ↔ (x < y)%Q.
Proof.
  unfold Qltb. rewrite negb_true_iff. split.
  - intros Hb. apply Qnot_le_lt. intros Hle%Qle_bool_iff. congruence.
  - intros Hlt. destruct (Qle_bool y x) eqn:Hb; [|done].
    apply Qle_bool_iff in Hb. lra.
Qed.

Lemma Qltb_ge (x y : Q) : Qltb x y = false ↔ (y <= x)%Q.
Proof.
  unfold Qltb. rewrite negb_false_iff. apply Qle_bool_iff.
Qed.

Lemma Qle_bool_gt (x y : Q) : Qle_bool x y = false ↔ (y < x)%Q.
Proof.
  split.
  - intros Hb. apply Qnot_le_lt. intros Hle%Qle_bool_iff. congruence.
  - intros Hlt. destruct (Qle_bool x y) eqn:Hb; [|done].
    apply Qle_bool_iff in Hb. lra.
Qed.

(** [x || 0] does not move a score across a threshold. *)
Lemma Qltb_orZero (q t : Q) : Qltb (orZero (Some q)) t = Qltb q t.
Proof.
  unfold orZero. destruct (Qeq_bool q 0) eqn:Hz; [|done].
  apply Qeq_bool_iff in Hz.
  destruct (Qltb q t) eqn:Hq.
  - apply Qltb_lt in Hq. apply Qltb_lt. lra.
  - apply Qltb_ge in Hq. apply Qltb_ge. lra.
Qed.

Lemma riskScore_present (a : Analysis) (p : SafetyProfile) :
  safety a = Some p →
  DashboardPage.riskScore (Some a) = orZero (Some (risk_score p)).
Proof. unfold DashboardPage.riskScore, DashboardPage.safety_of. by intros ->. Qed.

(** C1 (the code at the failing input): for an analysis without a safety
    profile the safety panel shows its no-data text, but the dashboard's
    risk card shows the score [0.0/10] in the green classes of the lowest
    risk band, exactly the value and classes it shows for a profile whose
    score is zero; only the subtitle tells the two apart. *)
Theorem C1_risk_card_without_safety
    (trials : option (list TrialsTable.Trial)) (papers : option (list string)) :
  let absent := mkAnalysis trials papers None in
  let zero := mkAnalysis trials papers (Some (mkSafety 0 "Low" 0 0 0 "" [] [])) in
  SafetyPanel.render (safety absent)
    = SafetyPanel.NoSafetyData "No safety data available"
  ∧ DashboardPage.riskCard (Some absent)
    = DashboardPage.mkCard "Risk Score" "0.0/10" (Some "N/A")
        "bg-green-500" "bg-green-50" "text-green-600"
  ∧ DashboardPage.riskCard (Some zero)
    = DashboardPage.mkCard "Risk Score" "0.0/10" (Some "Low")
        "bg-green-500" "bg-green-50" "text-green-600".
Proof. repeat split. Qed.

(** The safety panel itself never shows a score for a missing profile. *)
Lemma SafetyPanel_no_data (safety : option SafetyProfile) :
  safety = None ↔ ∃ text, SafetyPanel.render safety = SafetyPanel.NoSafetyData text.
Proof.
  split.
  - intros ->. by eexists.
  - destruct safety; [intros [? [=]] | done].
Qed.

(** C2: for a score in [0,10] the label is Low exactly below 4, Medium
    exactly from 4 up to but not including 7, and High exactly from 7 on;
    and for a profile whose label is the one of its score, the dashboard's
    risk card (coloured by the score) and the safety panel (coloured by
    the label) use one and the same colour. *)
Theorem C2_label_thresholds_and_colours (a : Analysis) (p : SafetyProfile) :
  safety a = Some p →
  (0 <= risk_score p)%Q → (risk_score p <= 10)%Q →
  risk_label p = risk_label_of (risk_score p) →
  let s := risk_score p in
  let l := risk_label p in
  let card := DashboardPage.riskCard (Some a) in
  (l = "Low" ↔ (s < 4)%Q)
  ∧ (l = "Medium" ↔ (4 <= s)%Q ∧ (s < 7)%Q)
  ∧ (l = "High" ↔ (7 <= s)%Q)
  ∧ ∃ hue : string,
      DashboardPage.card_color card = "bg-" ++ hue ++ "-500"
      ∧ DashboardPage.card_bgColor card = "bg-" ++ hue ++ "-50"
      ∧ DashboardPage.card_textColor card = "text-" ++ hue ++ "-600"
      ∧ SafetyPanel.getRiskColor l
        = "text-" ++ hue ++ "-600 bg-" ++ hue ++ "-50 border-" ++ hue ++ "-200"
      ∧ SafetyPanel.barColor l = "bg-" ++ hue ++ "-600".
Proof.
  intros Ha H0 H10 Hl. simpl.
  unfold DashboardPage.riskCard. simpl.
  rewrite (riskScore_present a p Ha), !Qltb_orZero, Hl.
  unfold risk_label_of.
  change (Qltb (risk_score p) 7) with (negb (Qle_bool 7 (risk_score p))).
  destruct (Qltb (risk_score p) 4) eqn:H4.
  - apply Qltb_lt in H4.
    repeat split; try done; try (intros; lra).
    by exists "green".
  - apply Qltb_ge in H4. destruct (Qle_bool 7 (risk_score p)) eqn:H7; simpl.
    + apply Qle_bool_iff in H7.
      repeat split; try done; try (intros; lra); try (intros [? ?]; lra).
      by exists "red".
    + apply Qle_bool_gt in H7.
      repeat split; try done; try (intros; lra).
      by exists "yellow".
Qed.

(** The scores at and next to the thresholds. *)
Example risk_label_samples :
  List.map risk_label_of [0; 39 # 10; 4; 69 # 10; 7; 10]%Q
  = ["Low"; "Low"; "Medium"; "Medium"; "High"; "High"].
Proof. reflexivity. Qed.

Lemma C2_label_thresholds_and_colours_witness :
  let p := mkSafety (69 # 10) "Medium" 120 14 1 "" [] [] in
  let a := mkAnalysis None None (Some p) in
  let card := DashboardPage.riskCard (Some a) in
  ("Medium" = "Low" ↔ (69 # 10 < 4)%Q)
  ∧ ("Medium" = "Medium" ↔ (4 <= 69 # 10)%Q ∧ (69 # 10 < 7)%Q)
  ∧ ("Medium" = "High" ↔ (7 <= 69 # 10)%Q)
  ∧ ∃ hue : string,
      DashboardPage.card_color card = "bg-" ++ hue ++ "-500"
      ∧ DashboardPage.card_bgColor card = "bg-" ++ hue ++ "-50"
      ∧ DashboardPage.card_textColor card = "text-" ++ hue ++ "-600"
      ∧ SafetyPanel.getRiskColor "Medium"
        = "text-" ++ hue ++ "-600 bg-" ++ hue ++ "-50 border-" ++ hue ++ "-200"
      ∧ SafetyPanel.barColor "Medium" = "bg-" ++ hue ++ "-600".
Proof.
  intros p a.
  apply (C2_label_thresholds_and_colours a p);
    [reflexivity | unfold Qle; simpl; lia | unfold Qle; simpl; lia | reflexivity].
Defined.

End RiskPresentation.

(** ** Strings *)

Section StringFacts.
Import JsString Vocabulary.

Lemma smap_app (f : ascii → ascii) (a b : string) :
  smap f (a ++ b) = smap f a ++ smap f b.
Proof. induction a as [|c a IH]; simpl; [done | by rewrite IH]. Qed.

Lemma smap_length (f : ascii → ascii) (s : string) :
  String.length (smap f s) = String.length s.
Proof. induction s as [|c s IH]; simpl; [done | by rewrite IH]. Qed.

Lemma startsWith_cons (c x : ascii) (p s : string) :
  startsWith (String x s) (String c p) = Ascii.eqb c x && startsWith s p.
Proof. done. Qed.

Lemma startsWith_nil (p : string) : p ≠ "" → startsWith "" p = false.
Proof. by destruct p. Qed.

Lemma startsWith_app (p b : string) : startsWith (p ++ b) p = true.
Proof.
  induction p as [|c p IH]; [done|].
  change (String c p ++ b) with (String c (p ++ b)).
  by rewrite startsWith_cons, Ascii.eqb_refl.
Qed.

Lemma includes_cons (c : ascii) (s p : string) :
  includes (String c s) p = startsWith (String c s) p || includes s p.
Proof. done. Qed.

Lemma includes_nil (p : string) : p ≠ "" → includes "" p = false.
Proof. intros Hp. simpl. by rewrite startsWith_nil. Qed.

Lemma includes_app_r (a s p : string) :
  includes s p = true → includes (a ++ s) p = true.
Proof.
  intros Hs. induction a as [|c a IH]; [done|].
  change (String c a ++ s) with (String c (a ++ s)).
  rewrite includes_cons, IH. apply orb_true_r.
Qed.

Lemma includes_infix (a p b : string) : includes (a ++ p ++ b) p = true.
Proof.
  apply includes_app_r.
  assert (startsWith (p ++ b) p = true) as Hst by apply startsWith_app.
  destruct (p ++ b); simpl; by rewrite Hst.
Qed.

(** Trimming does not change whether a pattern that starts and ends with
    a visible character occurs. *)
Lemma includes_trimStart (s p : string) :
  starts_nonspace p = true → includes (trimStart s) p = includes s p.
Proof.
  intros Hp. destruct p as [|c p]; [done|]. simpl in Hp.
  induction s as [|x s IH]; [done|].
  cbn [trimStart]. destruct (is_space x) eqn:Hx; [|done].
  rewrite IH, includes_cons, startsWith_cons.
  destruct (Ascii.eqb c x) eqn:Hcx; [|done].
  apply Ascii.eqb_eq in Hcx. subst x. by rewrite Hx in Hp.
Qed.

Lemma startsWith_trimEnd (s p : string) :
  ends_nonspace p = true →
  startsWith (trimEnd s) p = startsWith s p.
Proof.
  revert p. induction s as [|x s IH]; intros p Hp; [done|].
  destruct p as [|c p]; [done|].
  cbn [trimEnd]. rewrite (startsWith_cons c x p s).
  destruct (is_space x && String.eqb (trimEnd s) "") eqn:Hcond.
  - apply andb_true_iff in Hcond as [Hx Ht]. apply String.eqb_eq in Ht.
    destruct p as [|c' p].
    + simpl in Hp. destruct (Ascii.eqb c x) eqn:Hcx; [|done].
      apply Ascii.eqb_eq in Hcx. subst x. by rewrite Hx in Hp.
    + rewrite <- (IH (String c' p)) by done. rewrite Ht.
      simpl. by rewrite andb_false_r.
  - rewrite startsWith_cons. destruct p as [|c' p]; [done|].
    by rewrite (IH (String c' p)).
Qed.

Lemma includes_trimEnd (s p : string) :
  ends_nonspace p = true → includes (trimEnd s) p = includes s p.
Proof.
  intros Hp. assert (p ≠ "") as Hne by (by destruct p).
  induction s as [|x s IH]; [done|].
  rewrite includes_cons, <- (startsWith_trimEnd (String x s) p Hp), <- IH.
  cbn [trimEnd].
  destruct (is_space x && String.eqb (trimEnd s) "") eqn:Hcond.
  - apply andb_true_iff in Hcond as [_ Ht]. apply String.eqb_eq in Ht.
    rewrite Ht, includes_nil, startsWith_nil; done.
  - by rewrite includes_cons.
Qed.

Lemma includes_trim (s p : string) :
  starts_nonspace p = true → ends_nonspace p = true →
  includes (trim s) p = includes s p.
Proof.
  intros Hs He. unfold trim. by rewrite includes_trimEnd, includes_trimStart.
Qed.

(** *** Characters: facts checked on all 256 of them *)

Ltac all_chars c := destruct c as [[] [] [] [] [] [] [] []]; vm_compute; congruence.

Lemma upper_not_space (c : ascii) : is_upper c = true → is_space c = false.
Proof. all_chars c. Qed.

Lemma digit_not_space (c : ascii) : is_digit c = true → is_space c = false.
Proof. all_chars c. Qed.

Lemma is_space_char_upper (c : ascii) : is_space (char_upper c) = is_space c.
Proof. all_chars c. Qed.

Lemma sall_space_upper (sp : string) :
  sall is_space (toUpperCase sp) = sall is_space sp.
Proof.
  induction sp as [|c sp IH]; [done|]. simpl.
  by rewrite is_space_char_upper, <- IH.
Qed.

(** *** Runs of white space *)

Lemma replaceSpaceRuns_in_run (sp rest : string) :
  sall is_space sp = true →
  replaceSpaceRuns_from true (sp ++ rest) = replaceSpaceRuns_from true rest.
Proof.
  induction sp as [|c sp IH]; [done|]. simpl.
  intros [Hc Hsp]%andb_true_iff.
  change (String c sp ++ rest) with (String c (sp ++ rest)).
  simpl. rewrite Hc. auto.
Qed.

Lemma replaceSpaceRuns_run (sp rest : string) :
  sp ≠ "" → sall is_space sp = true →
  replaceSpaceRuns_from false (sp ++ rest)
  = String "_" (replaceSpaceRuns_from true rest).
Proof.
  destruct sp as [|c sp]; [done|]. intros _ [Hc Hsp]%andb_true_iff.
  change (String c sp ++ rest) with (String c (sp ++ rest)).
  simpl. rewrite Hc. by rewrite replaceSpaceRuns_in_run.
Qed.

Lemma trimEnd_app (a b : string) :
  b ≠ "" → trimEnd b = b → trimEnd (a ++ b) = a ++ b.
Proof.
  intros Hb Ht. induction a as [|c a IH]; [done|].
  change (String c a ++ b) with (String c (a ++ b)).
  cbn [trimEnd]. rewrite IH.
  destruct (a ++ b) eqn:E.
  - destruct a; [by subst | done].
  - simpl. by rewrite andb_false_r.
Qed.

Lemma startsWith_replaceSpaceRuns (b : bool) (s p : string) :
  sall (λ c, negb (is_space c)) p = true →
  startsWith s p = true → startsWith (replaceSpaceRuns_from b s) p = true.
Proof.
  revert b s. induction p as [|c p IH]; intros b s Hp Hs; [done|].
  destruct s as [|x s]; [done|].
  simpl in Hp. apply andb_true_iff in Hp as [Hc Hp].
  rewrite startsWith_cons in Hs. apply andb_true_iff in Hs as [Hcx Hs].
  apply Ascii.eqb_eq in Hcx. subst x.
  apply negb_true_iff in Hc. cbn [replaceSpaceRuns_from]. rewrite Hc.
  rewrite startsWith_cons, Ascii.eqb_refl. by apply IH.
Qed.

Lemma includes_replaceSpaceRuns (b : bool) (s p : string) :
  sall (λ c, negb (is_space c)) p = true →
  includes s p = true → includes (replaceSpaceRuns_from b s) p = true.
Proof.
  intros Hp. revert b. induction s as [|x s IH]; intros b Hs.
  - simpl in *. rewrite orb_false_r in *.
    by apply (startsWith_replaceSpaceRuns b "" p).
  - rewrite includes_cons in Hs. apply orb_true_iff in Hs as [Hs | Hs].
    + apply (startsWith_replaceSpaceRuns b) in Hs; [|done].
      destruct (replaceSpaceRuns_from b (String x s)); simpl; by rewrite Hs.
    + simpl. destruct (is_space x); [destruct b|].
      * by apply IH.
      * rewrite includes_cons, (IH true Hs). apply orb_true_r.
      * rewrite includes_cons, (IH false Hs). apply orb_true_r.
Qed.

(** *** Keys of the status table and their spellings *)

Lemma written_nil_inv (s : string) : written_as "" s → s = "".
Proof. by inversion 1. Qed.

Lemma key_words_after_sep (k : string) : key_words true k = true → k ≠ "".
Proof. by destruct k. Qed.

Lemma written_normal (k s : string) :
  written_as k s →
  ∀ after_sep in_run : bool,
    key_words after_sep k = true → (in_run = true → after_sep = true) →
    replaceSpaceRuns_from in_run (toUpperCase s) = k.
Proof.
  induction 1 as [| c c' k s Hc Hup Hw IH | k s Hw IH | sp k s Hne Hsp Hw IH];
    intros after_sep in_run Hk Hrun; simpl in Hk.
  - done.
  - apply Ascii.eqb_neq in Hc. rewrite Hc in Hk.
    apply andb_true_iff in Hk as [Hu Hk].
    simpl. rewrite Hup, (upper_not_space c Hu). f_equal.
    by apply (IH false false).
  - apply andb_true_iff in Hk as [Hsep Hk]. apply negb_true_iff in Hsep.
    destruct in_run; [by rewrite Hrun in Hsep|].
    simpl. f_equal. by apply (IH true false).
  - apply andb_true_iff in Hk as [Hsep Hk]. apply negb_true_iff in Hsep.
    destruct in_run; [by rewrite Hrun in Hsep|].
    unfold toUpperCase. rewrite smap_app.
    rewrite replaceSpaceRuns_run.
    + f_equal. by apply (IH true true).
    + by destruct sp.
    + etransitivity; [apply sall_space_upper | done].
Qed.

Lemma written_trimEnd (k s : string) :
  written_as k s →
  ∀ after_sep : bool,
    key_words after_sep k = true → k ≠ "" →
    trimEnd (toUpperCase s) = toUpperCase s ∧ toUpperCase s ≠ "".
Proof.
  induction 1 as [| c c' k s Hc Hup Hw IH | k s Hw IH | sp k s Hne Hsp Hw IH];
    intros after_sep Hk Hkne; simpl in Hk.
  - done.
  - apply Ascii.eqb_neq in Hc. rewrite Hc in Hk.
    apply andb_true_iff in Hk as [Hu Hk].
    split; [|done]. unfold toUpperCase in *. simpl.
    rewrite Hup, (upper_not_space c Hu). simpl.
    destruct k as [|c0 k].
    + by rewrite (written_nil_inv s Hw).
    + by destruct (IH false Hk) as [-> _].
  - apply andb_true_iff in Hk as [_ Hk].
    split; [|done]. unfold toUpperCase in *. simpl.
    by destruct (IH true Hk (key_words_after_sep k Hk)) as [-> _].
  - apply andb_true_iff in Hk as [_ Hk].
    destruct (IH true Hk (key_words_after_sep k Hk)) as [Ht Hn].
    unfold toUpperCase in *. rewrite smap_app. split.
    + by apply trimEnd_app.
    + destruct (smap char_upper sp); [done|]. done.
Qed.

Lemma written_trimStart (k s : string) :
  is_key k = true → written_as k s →
  trimStart (toUpperCase s) = toUpperCase s.
Proof.
  unfold is_key. intros Hk Hw.
  destruct Hw as [| c c' k s Hc Hup Hw | k s Hw | sp k s Hne Hsp Hw];
    simpl in Hk; try done.
  apply Ascii.eqb_neq in Hc. rewrite Hc in Hk.
  apply andb_true_iff in Hk as [Hu Hk].
  unfold toUpperCase. simpl. by rewrite Hup, (upper_not_space c Hu).
Qed.

(** The key is what the table is looked up at, however it was spelled. *)
Lemma written_upperName (k s : string) :
  is_key k = true → written_as k s →
  replaceSpaceRuns (ChartsPanel.upperName s) = k ∧ s ≠ "".
Proof.
  intros Hk Hw.
  destruct (written_trimEnd k s Hw true Hk (key_words_after_sep k Hk))
    as [Ht Hn].
  split.
  - unfold ChartsPanel.upperName, trim.
    rewrite (written_trimStart k s Hk Hw), Ht.
    by apply (written_normal k s Hw true false).
  - by intros ->.
Qed.

End StringFacts.

(** ** [formatLabel] *)

Section FormatLabel.
Import JsString Vocabulary ChartsPanel.

Ltac entries H :=
  unfold statusEntries in H;
  repeat (apply elem_of_cons in H as [H | H]; [injection H as -> -> |]);
  [.. | by apply elem_of_nil in H].

Lemma statusMap_entry (k l : string) :
  statusMap !! k = Some l ↔ (k, l) ∈ statusEntries.
Proof.
  split.
  - apply elem_of_list_to_map_2.
  - intros H. entries H; reflexivity.
Qed.

Lemma statusEntries_keys (k l : string) :
  (k, l) ∈ statusEntries →
  is_key k = true ∧ includes k "PHASE" = false ∧ isNotApplicable k = false.
Proof. intros H. entries H; by vm_compute. Qed.

(** Whenever the table has an entry for the normalised name, that entry
    is the result: neither the N/A rule nor the phase rule fires on a
    name that normalises to a key of the table. *)
Lemma formatLabel_status (name label : string) :
  name ≠ "" → statusLabel (upperName name) = Some label →
  formatLabel name = label.
Proof.
  intros Hne Hst. unfold formatLabel.
  apply String.eqb_neq in Hne. rewrite Hne.
  unfold statusLabel in *. set (u := upperName name) in *.
  destruct (isNotApplicable u) eqn:Hna.
  { unfold isNotApplicable in Hna.
    apply orb_true_iff in Hna as [Hna | Hna];
      [apply orb_true_iff in Hna as [Hna | Hna]|];
      apply String.eqb_eq in Hna; rewrite Hna in Hst; by vm_compute in Hst. }
  assert (phaseLabel name u = None) as ->.
  { unfold phaseLabel. destruct (includes u "PHASE") eqn:Hph; [|done].
    apply (includes_replaceSpaceRuns false) in Hph; [|done].
    apply statusMap_entry, statusEntries_keys in Hst as (_ & Hno & _).
    unfold replaceSpaceRuns in Hno. congruence. }
  by rewrite Hst.
Qed.

Lemma status_entry_label (key label s : string) :
  (key, label) ∈ statusEntries → written_as key s →
  formatLabel s = label.
Proof.
  intros Hin Hw.
  destruct (statusEntries_keys key label Hin) as (Hk & _ & _).
  destruct (written_upperName key s Hk Hw) as [Hu Hne].
  apply formatLabel_status; [done|].
  unfold statusLabel. rewrite Hu. by apply statusMap_entry.
Qed.

(** C5: for each of the nine long-form status strings, [formatLabel]
    returns the short label that goes with it (ACTIVE_NOT_RECRUITING gives
    "Active", NOT_YET_RECRUITING gives "Not Recruiting", and so on), on
    every spelling of the long form: in any letter case, and with white
    space in place of underscores. *)
Theorem C5_status_labels (key label s : string) :
  (key, label) ∈ [ ("ACTIVE_NOT_RECRUITING", "Active");
                   ("NOT_YET_RECRUITING", "Not Recruiting");
                   ("ENROLLING_BY_INVITATION", "By Invitation");
                   ("SUSPENDED", "Suspended");
                   ("TERMINATED", "Terminated");
                   ("COMPLETED", "Completed");
                   ("WITHDRAWN", "Withdrawn");
                   ("UNKNOWN", "Unknown");
                   ("RECRUITING", "Recruiting") ] →
  written_as key s →
  formatLabel s = label.
Proof. apply status_entry_label. Qed.

Ltac spell :=
  repeat first
    [ apply written_end
    | apply written_underscore
    | apply written_letter; [discriminate | reflexivity |]
    | apply (written_spaces " "); [discriminate | reflexivity |] ].

Lemma C5_status_labels_witness :
  written_as "NOT_YET_RECRUITING" "Not yet_Recruiting"
  ∧ formatLabel "Not yet_Recruiting" = "Not Recruiting".
Proof.
  assert (written_as "NOT_YET_RECRUITING" "Not yet_Recruiting") as Hw by spell.
  split; [exact Hw|].
  apply (C5_status_labels "NOT_YET_RECRUITING" "Not Recruiting");
    [|exact Hw].
  apply list_elem_of_further, list_elem_of_here.
Defined.

(** *** The default branch *)

Lemma formatLabel_default (s : string) :
  s ≠ "" → isNotApplicable (upperName s) = false →
  phaseLabel s (upperName s) = None → statusLabel (upperName s) = None →
  formatLabel s = defaultLabel s.
Proof.
  intros Hne Hna Hph Hst. unfold formatLabel.
  apply String.eqb_neq in Hne. by rewrite Hne, Hna, Hph, Hst.
Qed.

Lemma capitalizeWords_length (b : bool) (s : string) :
  String.length (capitalizeWords_from b s) = String.length s.
Proof.
  revert b. induction s as [|c s IH]; intros b; simpl; [done | by rewrite IH].
Qed.

Lemma defaultLabel_length (s : string) :
  String.length (defaultLabel s) = String.length s.
Proof.
  unfold defaultLabel, capitalizeWords, toLowerCase, replaceUnderscores.
  by rewrite capitalizeWords_length, !smap_length.
Qed.

(** What the default branch does to one character is undone by reading
    underscores as spaces and ignoring the letter case. *)
Lemma default_char (c : ascii) (b : bool) :
  let under := λ x : ascii, if Ascii.eqb x "_" then " "%char else x in
  let x := char_lower (under c) in
  char_upper (under (if b then char_upper x else x)) = char_upper (under c).
Proof.
  destruct b; destruct c as [[] [] [] [] [] [] [] []]; vm_compute; congruence.
Qed.

Lemma capitalized_same_text (b : bool) (s : string) :
  toUpperCase (replaceUnderscores
    (capitalizeWords_from b (toLowerCase (replaceUnderscores s))))
  = toUpperCase (replaceUnderscores s).
Proof.
  unfold toUpperCase, toLowerCase, replaceUnderscores.
  revert b. induction s as [|c s IH]; intros b; [done|].
  cbn [smap capitalizeWords_from]. f_equal; [|apply IH].
  apply (default_char c).
Qed.

Lemma defaultLabel_same_text (s : string) :
  toUpperCase (replaceUnderscores (defaultLabel s))
  = toUpperCase (replaceUnderscores s).
Proof. apply capitalized_same_text. Qed.

(** C4, as amended: a non-empty string that the N/A rule, the phase rule
    and the status table all leave alone is not dropped; the result is the
    default formatting of the string (underscores become spaces, letters
    lower case, the first character of each word upper case), as long as
    the input and equal to it once underscores are read as spaces and the
    letter case is ignored. *)
Theorem C4_unrecognized_default (s : string) :
  ascii_only s = true → s ≠ "" →
  isNotApplicable (upperName s) = false →
  phaseLabel s (upperName s) = None →
  statusLabel (upperName s) = None →
  formatLabel s = defaultLabel s
  ∧ String.length (formatLabel s) = String.length s
  ∧ toUpperCase (replaceUnderscores (formatLabel s))
    = toUpperCase (replaceUnderscores s).
Proof.
  intros _ Hne Hna Hph Hst.
  rewrite (formatLabel_default s Hne Hna Hph Hst).
  split; [done|]. split; [apply defaultLabel_length | apply defaultLabel_same_text].
Qed.

Lemma C4_unrecognized_default_witness :
  formatLabel "APPROVED_FOR_MARKETING" = defaultLabel "APPROVED_FOR_MARKETING"
  ∧ String.length (formatLabel "APPROVED_FOR_MARKETING")
    = String.length "APPROVED_FOR_MARKETING"
  ∧ toUpperCase (replaceUnderscores (formatLabel "APPROVED_FOR_MARKETING"))
    = toUpperCase (replaceUnderscores "APPROVED_FOR_MARKETING").
Proof.
  apply (C4_unrecognized_default "APPROVED_FOR_MARKETING");
    [reflexivity | discriminate | reflexivity | reflexivity | reflexivity].
Defined.

(** C4, as stated, fails: an unrecognised status is reformatted, not
    passed through. *)
Lemma C4_counterexample :
  "APPROVED_FOR_MARKETING" ≠ ""
  ∧ phaseLabel "APPROVED_FOR_MARKETING" (upperName "APPROVED_FOR_MARKETING") = None
  ∧ statusLabel (upperName "APPROVED_FOR_MARKETING") = None
  ∧ formatLabel "APPROVED_FOR_MARKETING" = "Approved For Marketing"
  ∧ formatLabel "APPROVED_FOR_MARKETING" ≠ "APPROVED_FOR_MARKETING".
Proof. repeat split; discriminate. Qed.

(** *** The phase rule *)

Lemma app_assoc_s (a b c : string) : (a ++ b) ++ c = a ++ (b ++ c).
Proof.
  induction a as [|x a IH]; [done|].
  change (String x (a ++ b) ++ c = String x (a ++ (b ++ c))).
  change (String x ((a ++ b) ++ c) = String x (a ++ (b ++ c))).
  by rewrite IH.
Qed.

Lemma strip_prefix_ci_app (p w rest : string) :
  toUpperCase w = p → strip_prefix_ci p (w ++ rest) = Some rest.
Proof.
  revert w. induction p as [|c p IH]; intros w Hw.
  - by destruct w.
  - destruct w as [|x w]; [done|]. injection Hw as Hx Hw.
    change (String x w ++ rest) with (String x (w ++ rest)).
    cbn [strip_prefix_ci]. rewrite Hx, Ascii.eqb_refl. by apply IH.
Qed.

Lemma strip_prefix_ci_inv (p s rest : string) :
  strip_prefix_ci p s = Some rest →
  ∃ w, s = w ++ rest ∧ toUpperCase w = p.
Proof.
  revert s. induction p as [|c p IH]; intros s Hs.
  - injection Hs as ->. by exists "".
  - destruct s as [|x s]; [done|]. cbn [strip_prefix_ci] in Hs.
    destruct (Ascii.eqb (char_upper x) c) eqn:Hx; [|done].
    apply Ascii.eqb_eq in Hx. destruct (IH s Hs) as (w & -> & Hw).
    exists (String x w). split; [done|].
    unfold toUpperCase in *. simpl. by rewrite Hx, Hw.
Qed.

Lemma trimStart_spaces (sp r : string) :
  sall is_space sp = true → trimStart (sp ++ r) = trimStart r.
Proof.
  induction sp as [|c sp IH]; [done|]. simpl.
  intros [Hc Hsp]%andb_true_iff.
  change (String c sp ++ r) with (String c (sp ++ r)).
  simpl. rewrite Hc. auto.
Qed.

Lemma trimStart_split (s : string) :
  ∃ sp, s = sp ++ trimStart s ∧ sall is_space sp = true.
Proof.
  induction s as [|c s (sp & Hs & Hsp)]; [by exists ""|].
  simpl. destruct (is_space c) eqn:Hc.
  - exists (String c sp). split.
    + change (String c sp ++ trimStart s) with (String c (sp ++ trimStart s)).
      by rewrite <- Hs.
    + simpl. by rewrite Hc.
  - by exists "".
Qed.

Lemma takeDigits_app (d post : string) :
  sall is_digit d = true → takeDigits post = "" →
  takeDigits (d ++ post) = d.
Proof.
  intros Hd Hpost. induction d as [|c d IH]; [done|].
  simpl in Hd. apply andb_true_iff in Hd as [Hc Hd].
  change (String c d ++ post) with (String c (d ++ post)).
  simpl. rewrite Hc. by rewrite IH.
Qed.

Lemma takeDigits_split (s : string) :
  ∃ post, s = takeDigits s ++ post
          ∧ sall is_digit (takeDigits s) = true ∧ takeDigits post = "".
Proof.
  induction s as [|c s (post & Hs & Hd & Hpost)]; [by exists ""|].
  simpl. destruct (is_digit c) eqn:Hc.
  - exists post. split; [|split; [|done]].
    + change (String c (takeDigits s) ++ post)
        with (String c (takeDigits s ++ post)).
      by rewrite <- Hs.
    + simpl. by rewrite Hc.
  - exists (String c s). repeat split; try done. simpl. by rewrite Hc.
Qed.

Lemma trimStart_digits (d post : string) :
  d ≠ "" → sall is_digit d = true → trimStart (d ++ post) = d ++ post.
Proof.
  destruct d as [|c d]; [done|]. intros _ [Hc _]%andb_true_iff.
  change (String c d ++ post) with (String c (d ++ post)).
  simpl. by rewrite (digit_not_space c Hc).
Qed.

(** The regular expression at the head of a string, both ways. *)
Lemma match_phase_at_intro (s d : string) :
  phase_at s "" d → match_phase_at s = Some d.
Proof.
  intros (w & sp & post & -> & Hw & Hsp & Hne & Hd & Hpost).
  unfold match_phase_at.
  change ("" ++ w ++ sp ++ d ++ post) with (w ++ sp ++ d ++ post).
  rewrite (strip_prefix_ci_app "PHASE" w _ Hw).
  rewrite (trimStart_spaces sp _ Hsp), (trimStart_digits d post Hne Hd).
  rewrite (takeDigits_app d post Hd Hpost).
  apply String.eqb_neq in Hne. by rewrite Hne.
Qed.

Lemma match_phase_at_elim (s d : string) :
  match_phase_at s = Some d → phase_at s "" d.
Proof.
  unfold match_phase_at.
  destruct (strip_prefix_ci "PHASE" s) as [rest|] eqn:Hstrip; [|done].
  destruct (String.eqb (takeDigits (trimStart rest)) "") eqn:He; [done|].
  intros [= <-]. apply String.eqb_neq in He.
  destruct (strip_prefix_ci_inv _ _ _ Hstrip) as (w & -> & Hw).
  destruct (trimStart_split rest) as (sp & Hrest & Hsp).
  destruct (takeDigits_split (trimStart rest)) as (post & Ht & Hd & Hpost).
  exists w, sp, post. repeat split; try done.
  change ("" ++ w ++ sp ++ takeDigits (trimStart rest) ++ post)
    with (w ++ sp ++ takeDigits (trimStart rest) ++ post).
  by rewrite <- Ht, <- Hrest.
Qed.

Lemma phase_at_cons (c : ascii) (s pre d : string) :
  phase_at (String c s) (String c pre) d ↔ phase_at s pre d.
Proof.
  unfold phase_at. split.
  - intros (w & sp & post & Hs & H). exists w, sp, post. split; [|done].
    change (String c pre ++ w ++ sp ++ d ++ post)
      with (String c (pre ++ w ++ sp ++ d ++ post)) in Hs.
    by injection Hs.
  - intros (w & sp & post & -> & H). by exists w, sp, post.
Qed.

Lemma phase_at_head (s pre d : string) (c : ascii) :
  phase_at s (String c pre) d → ∃ s', s = String c s'.
Proof. intros (w & sp & post & -> & _). by eexists. Qed.

(** [match] returns the digits of the leftmost occurrence. *)
Lemma match_phase_leftmost (s pre d : string) :
  phase_at s pre d →
  (∀ pre' d', phase_at s pre' d' → (String.length pre ≤ String.length pre')%nat) →
  match_phase s = Some d.
Proof.
  revert s. induction pre as [|c pre IH]; intros s Hat Hleft.
  - apply match_phase_at_intro in Hat.
    destruct s; cbn [match_phase]; by rewrite Hat.
  - destruct (phase_at_head s pre d c Hat) as (s' & ->).
    cbn [match_phase]. destruct (match_phase_at (String c s')) as [d0|] eqn:Hm.
    { apply match_phase_at_elim, Hleft in Hm. simpl in Hm. lia. }
    apply IH.
    + by apply (phase_at_cons c).
    + intros pre' d' Hat'. apply (phase_at_cons c) in Hat'.
      apply Hleft in Hat'. simpl in Hat'. lia.
Qed.

Lemma phase_at_includes (s pre d : string) :
  phase_at s pre d → includes (toUpperCase s) "PHASE" = true ∧ s ≠ "".
Proof.
  intros (w & sp & post & -> & Hw & _). split.
  - unfold toUpperCase in *. rewrite !smap_app, Hw. apply includes_infix.
  - destruct pre; [|done]. destruct w; done.
Qed.

Lemma match_phase_complete (s pre d : string) :
  phase_at s pre d → is_Some (match_phase s).
Proof.
  revert s. induction pre as [|c pre IH]; intros s Hat.
  - apply match_phase_at_intro in Hat.
    destruct s; cbn [match_phase]; rewrite Hat; by eexists.
  - destruct (phase_at_head s pre d c Hat) as (s' & ->).
    cbn [match_phase]. destruct (match_phase_at (String c s')); [by eexists|].
    by apply IH, (phase_at_cons c).
Qed.

Lemma match_phase_sound (s d : string) :
  match_phase s = Some d →
  ∃ pre, phase_at s pre d
         ∧ ∀ pre' d', phase_at s pre' d' →
                      (String.length pre ≤ String.length pre')%nat.
Proof.
  revert d. induction s as [|c s IH]; intros d Hm.
  - by vm_compute in Hm.
  - cbn [match_phase] in Hm.
    destruct (match_phase_at (String c s)) as [d0|] eqn:Hat.
    + injection Hm as ->. exists "". split; [by apply match_phase_at_elim|].
      intros pre' d' _. simpl. lia.
    + destruct (IH d Hm) as (pre & Hpre & Hleft).
      exists (String c pre). split; [by apply phase_at_cons|].
      intros pre' d' Hat'. destruct pre' as [|c' pre'].
      * apply match_phase_at_intro in Hat'. congruence.
      * destruct (phase_at_head _ _ _ _ Hat') as (s' & [= <- <-]).
        apply phase_at_cons, Hleft in Hat'. simpl. lia.
Qed.

Lemma formatLabel_phase_leftmost (s pre d : string) :
  phase_at s pre d →
  (∀ pre' d', phase_at s pre' d' → (String.length pre ≤ String.length pre')%nat) →
  formatLabel s
  = if includes (toUpperCase s) "EARLY" then "Early Phase 1" else "Phase " ++ d.
Proof.
  intros Hat Hleft.
  destruct (phase_at_includes s pre d Hat) as [Hph Hne].
  unfold formatLabel. apply String.eqb_neq in Hne. rewrite Hne.
  unfold phaseLabel, upperName.
  rewrite !includes_trim by done. rewrite Hph.
  rewrite (match_phase_leftmost s pre d Hat Hleft).
  destruct (isNotApplicable (trim (toUpperCase s))) eqn:Hna;
    [|by destruct (includes (toUpperCase s) "EARLY")].
  rewrite <- (includes_trim _ "PHASE") in Hph by done.
  unfold isNotApplicable in Hna.
  apply orb_true_iff in Hna as [Hna | Hna];
    [apply orb_true_iff in Hna as [Hna | Hna]|];
    apply String.eqb_eq in Hna; rewrite Hna in Hph; by vm_compute in Hph.
Qed.

(** C3, as amended: when PHASE (in any letter case) followed by optional
    white space and digits occurs in the string, there is a leftmost such
    occurrence, and [formatLabel] returns ["Early Phase 1"] if the string
    also contains EARLY (in any letter case), and otherwise ["Phase "]
    followed by all the digits of that leftmost occurrence, whatever else
    the string contains. *)
Theorem C3_phase_label (s : string) :
  ascii_only s = true →
  (∃ pre d, phase_at s pre d) →
  ∃ pre d,
    phase_at s pre d
    ∧ (∀ pre' d', phase_at s pre' d' →
                  (String.length pre ≤ String.length pre')%nat)
    ∧ formatLabel s
      = if includes (toUpperCase s) "EARLY" then "Early Phase 1"
        else "Phase " ++ d.
Proof.
  intros _ (pre0 & d0 & Hat0).
  destruct (match_phase_complete s pre0 d0 Hat0) as [d Hm].
  destruct (match_phase_sound s d Hm) as (pre & Hat & Hleft).
  exists pre, d. split; [done|]. split; [done|].
  by apply (formatLabel_phase_leftmost s pre d).
Qed.

Lemma C3_phase_label_witness :
  ∃ pre d,
    phase_at "Stage: phase 2 / Phase 3" pre d
    ∧ (∀ pre' d', phase_at "Stage: phase 2 / Phase 3" pre' d' →
                  (String.length pre ≤ String.length pre')%nat)
    ∧ formatLabel "Stage: phase 2 / Phase 3"
      = if includes (toUpperCase "Stage: phase 2 / Phase 3") "EARLY"
        then "Early Phase 1" else "Phase " ++ d.
Proof.
  apply (C3_phase_label "Stage: phase 2 / Phase 3").
  - reflexivity.
  - exists "Stage: phase 2 / ", "3", "Phase", " ", "".
    repeat split; discriminate.
Defined.

(** C3, as stated, fails: text around the occurrence changes the result. *)
Lemma C3_counterexample :
  phase_at "EARLY_PHASE1" "EARLY_" "1"
  ∧ formatLabel "EARLY_PHASE1" = "Early Phase 1"
  ∧ formatLabel "EARLY_PHASE1" ≠ "Phase 1".
Proof.
  split; [|split; [reflexivity | discriminate]].
  exists "PHASE", "", "". repeat split; discriminate.
Qed.

(** *** Sample values *)

Example formatLabel_samples :
  List.map formatLabel
    [ "PHASE1"; "phase 2"; "Phase2/Phase3"; "EARLY_PHASE1"; "PHASE";
      "NA"; " n/a "; "not yet recruiting"; "AVAILABLE"; "no_longer_available"; "" ]
  = [ "Phase 1"; "Phase 2"; "Phase 2"; "Early Phase 1"; "Phase";
      "N/A"; "N/A"; "Not Recruiting"; "Available"; "No Longer Available"; "" ].
Proof. reflexivity. Qed.

(** The nine keys with their labels, spelled as in the table. *)
Lemma formatLabel_table :
  List.map (λ e, formatLabel (fst e)) statusEntries
  = List.map snd statusEntries.
Proof. reflexivity. Qed.

End FormatLabel.

(** ** The analysis store, field by field *)

Section StoreSnapshots.
Import Heap AnalysisStore StoreModel.

Lemma field_union_l (partial f : gmap string value) (k : string) (v : value) :
  partial !! k = Some v → field k (partial ∪ f) = v.
Proof. intros Hp. unfold field. by rewrite (lookup_union_Some_l _ _ _ _ Hp). Qed.

Lemma field_union_r (partial f : gmap string value) (k : string) :
  partial !! k = None → field k (partial ∪ f) = field k f.
Proof. intros Hp. unfold field. by rewrite lookup_union_r. Qed.

Lemma snapshot_shaped (w : world) (s : snapshot) :
  snapshot_of w = Some s ↔
  ∃ f hl, w_heap w !! w_state w = Some (Obj f)
          ∧ f !! "history" = Some (VRef hl)
          ∧ w_heap w !! hl = Some (Arr (s_history s))
          ∧ field "currentAnalysis" f = s_currentAnalysis s
          ∧ field "isLoading" f = s_isLoading s
          ∧ field "error" f = s_error s.
Proof.
  unfold snapshot_of. split.
  - destruct (state_fields w) as [f|] eqn:Hf; [|done].
    destruct (history w) as [hist|] eqn:Hh; [|done].
    intros [= <-]. apply history_shaped in Hh as (f' & hl & Hst & Hhist & Hhl).
    unfold state_fields, load_obj, load, mbind, M_bind in Hf.
    rewrite Hst in Hf. injection Hf as <-. by exists f', hl.
  - intros (f & hl & Hst & Hhist & Hhl & Hc & Hl & He).
    assert (history w = Some (s_history s)) as ->.
    { apply history_shaped. by exists f, hl. }
    unfold state_fields, load_obj, load, mbind, M_bind. rewrite Hst. simpl.
    destruct s. simpl in *. by subst.
Qed.

Ltac field_of_partial :=
  first [ apply field_union_l; by simplify_map_eq
        | rewrite field_union_r by (by simplify_map_eq); reflexivity ].

(** Every action returns and leaves the fields its source line writes,
    with the history array of [history_after]. *)
Lemma dispatch_snapshot (a : action) (state : loc) (h : heap)
    (f : gmap string value) (hl : loc) (hist : list value) :
  h !! state = Some (Obj f) → f !! "history" = Some (VRef hl) →
  h !! hl = Some (Arr hist) →
  returns (dispatch a state) h (λ state' h',
    ∃ f' hl',
      h' !! state' = Some (Obj f') ∧ f' !! "history" = Some (VRef hl')
      ∧ h' !! hl' = Some (Arr (history_after a hist))
      ∧ field "currentAnalysis" f'
        = match a with
          | SetAnalysis v => v
          | ClearAnalysis => VNull
          | _ => field "currentAnalysis" f
          end
      ∧ field "isLoading" f'
        = match a with SetLoading v => v | _ => field "isLoading" f end
      ∧ field "error" f'
        = match a with
          | SetError e => e
          | ClearError => VNull
          | _ => field "error" f
          end).
Proof.
  intros Hst Hf Hhl.
  destruct a as [analysis | loading | error | | |]; simpl.
  - unfold setAnalysis. apply returns_bind.
    eapply returns_load_obj; [done|]. apply returns_bind.
    unfold field at 1. rewrite Hf. simpl.
    eapply returns_load_arr; [done|]. apply returns_bind.
    apply returns_alloc. intros l1 Hl1. apply returns_bind.
    eapply returns_load_arr; [apply lookup_insert_eq|]. apply returns_bind.
    apply returns_alloc. intros l2 Hl2.
    eapply set_returns.
    { rewrite !lookup_insert_ne; [done | by eapply fresh_ne |].
      eapply fresh_ne; [done|]. rewrite lookup_insert_ne; [done|].
      by eapply fresh_ne. }
    intros l3 Hl3. eexists _, l2. rewrite lookup_insert_eq.
    split; [done|]. split; [apply lookup_union_Some_l; by simplify_map_eq|].
    split.
    { rewrite lookup_insert_ne; [apply lookup_insert_eq|].
      eapply fresh_ne; [done | apply lookup_insert_eq]. }
    repeat split; field_of_partial.
  - eapply set_returns; [done|]. intros l Hl.
    exists ({[ "isLoading" := loading ]} ∪ f), hl. rewrite lookup_insert_eq.
    split; [done|]. split; [by rewrite lookup_union_r|]. split.
    { rewrite lookup_insert_ne; [done | by eapply fresh_ne]. }
    repeat split; field_of_partial.
  - eapply set_returns; [done|]. intros l Hl.
    exists ({[ "error" := error ]} ∪ f), hl. rewrite lookup_insert_eq.
    split; [done|]. split; [by rewrite lookup_union_r|]. split.
    { rewrite lookup_insert_ne; [done | by eapply fresh_ne]. }
    repeat split; field_of_partial.
  - eapply set_returns; [done|]. intros l Hl.
    exists ({[ "error" := VNull ]} ∪ f), hl. rewrite lookup_insert_eq.
    split; [done|]. split; [by rewrite lookup_union_r|]. split.
    { rewrite lookup_insert_ne; [done | by eapply fresh_ne]. }
    repeat split; field_of_partial.
  - eapply set_returns; [done|]. intros l Hl.
    exists ({[ "currentAnalysis" := VNull ]} ∪ f), hl. rewrite lookup_insert_eq.
    split; [done|]. split; [by rewrite lookup_union_r|]. split.
    { rewrite lookup_insert_ne; [done | by eapply fresh_ne]. }
    repeat split; field_of_partial.
  - unfold clearHistory. apply returns_bind.
    apply returns_alloc. intros l1 Hl1.
    eapply set_returns.
    { rewrite lookup_insert_ne; [done | by eapply fresh_ne]. }
    intros l2 Hl2. eexists _, l1. rewrite lookup_insert_eq.
    split; [done|]. split; [apply lookup_union_Some_l; by simplify_map_eq|].
    split.
    { rewrite lookup_insert_ne; [apply lookup_insert_eq|].
      eapply fresh_ne; [done | apply lookup_insert_eq]. }
    repeat split; field_of_partial.
Qed.

Lemma step_snapshot (a : action) (w : world) (s : snapshot) :
  snapshot_of w = Some s →
  ∃ w', step a w = Some w' ∧ snapshot_of w' = Some (apply a s).
Proof.
  intros (f & hl & Hst & Hf & Hhl & Hc & Hl & He)%snapshot_shaped.
  destruct (dispatch_snapshot a _ _ f hl _ Hst Hf Hhl)
    as (st' & h' & Hd & f' & hl' & Hst' & Hf' & Hhl' & Hc' & Hl' & He').
  exists (mkWorld h' st'). unfold step. rewrite Hd. split; [done|].
  apply snapshot_shaped. exists f', hl'. simpl.
  rewrite Hc', Hl', He', Hc, Hl, He.
  destruct a; simpl; by repeat split.
Qed.

(** X1: on a store whose state can be read, every action returns and
    changes the four fields exactly as [apply] says: the fields its partial
    state names get the new values (the history of [setAnalysis] being the
    new analysis followed by the first nine old entries), and every other
    field keeps its value. *)
Theorem store_action_fields (a : action) (w : world) (s : snapshot) :
  snapshot_of w = Some s →
  ∃ w', step a w = Some w' ∧ snapshot_of w' = Some (apply a s).
Proof. apply step_snapshot. Qed.

Lemma store_action_fields_witness :
  let w := mkWorld (<[1%positive := Arr [VStr "run 0"]]>
                    (<[2%positive := Obj (<["currentAnalysis" := VStr "run 0"]>
                                          (<["isLoading" := VBool true]>
                                           (<["error" := VNull]>
                                            (<["history" := VRef 1%positive]> ∅))))]> ∅))
                   2%positive in
  snapshot_of w
    = Some (mkSnapshot (VStr "run 0") (VBool true) VNull [VStr "run 0"])
  ∧ ∃ w', step ClearAnalysis w = Some w'
          ∧ snapshot_of w'
            = Some (mkSnapshot VNull (VBool true) VNull [VStr "run 0"]).
Proof.
  intros w.
  assert (snapshot_of w
          = Some (mkSnapshot (VStr "run 0") (VBool true) VNull [VStr "run 0"]))
    as Hs by (vm_compute; reflexivity).
  split; [exact Hs | exact (store_action_fields ClearAnalysis w _ Hs)].
Defined.

Lemma initial_snapshot :
  ∃ w0, initial = Some w0
        ∧ snapshot_of w0 = Some (mkSnapshot VNull (VBool false) VNull []).
Proof. eexists. split; reflexivity. Qed.

Lemma occur_snapshot (e : event) (w : world) (s : snapshot) :
  snapshot_of w = Some s →
  ∃ w', occur e w = Some w'
        ∧ snapshot_of w'
          = Some (match e with Act a => apply a s | New _ => s end).
Proof.
  intros Hs. destruct e as [a | c]; simpl.
  - by apply step_snapshot.
  - eexists. split; [done|].
    apply snapshot_shaped in Hs as (f & hl & Hst & Hf & Hhl & Hrest).
    apply snapshot_shaped. exists f, hl. simpl.
    assert (w_heap w ⊆ <[fresh (dom (w_heap w)) := c]> (w_heap w)) as Hsub.
    { apply insert_subseteq, not_elem_of_dom, is_fresh. }
    repeat split; try tauto; by eapply lookup_weaken.
Qed.

End StoreSnapshots.

Section StoreRuns.
Import JsString Heap AnalysisStore StoreModel.

Lemma snapshot_history (w : world) (s : snapshot) :
  snapshot_of w = Some s → history w = Some (s_history s).
Proof.
  intros (f & hl & Hst & Hf & Hhl & _)%snapshot_shaped.
  apply history_shaped. by exists f, hl.
Qed.

Lemma run_recent (es : list event) (w : world) (s : snapshot)
    (acc : list value) :
  snapshot_of w = Some s → s_history s = take 10 acc →
  ∃ w' s', run es w = Some w' ∧ snapshot_of w' = Some s'
           ∧ s_history s' = take 10 (recent_from acc es).
Proof.
  revert w s acc. induction es as [|e es IH]; intros w s acc Hs Hacc; simpl.
  - by exists w, s.
  - destruct (occur_snapshot e w s Hs) as (w1 & -> & Hs1).
    destruct e as [[analysis | | | | |] | c];
      try (eapply IH; [exact Hs1 | exact Hacc]).
    + eapply IH; [exact Hs1|]. simpl. rewrite Hacc, take_take. done.
    + eapply IH; [exact Hs1 | done].
Qed.

(** X2: from the initial state, after any sequence of store actions (and
    client allocations) the history is the analyses passed to [setAnalysis]
    since the last [clearHistory], newest first, cut after the tenth;
    repeated analyses are kept as often as they were stored. *)
Theorem history_is_recent (es : list event) :
  ∃ w, initial ≫= run es = Some w
       ∧ history w = Some (take 10 (recent es)).
Proof.
  destruct initial_snapshot as (w0 & Hi & Hs0).
  destruct (run_recent es w0 _ [] Hs0) as (w & s & Hr & Hs & Hh); [done|].
  exists w. rewrite Hi. simpl. split; [done|].
  rewrite (snapshot_history w s Hs). by rewrite Hh.
Qed.







End StoreRuns.

(** ** The UI store: sequences of toggles *)

Section ToggleRuns.
Import UIStore UIStoreRuns.

Lemma selected_toggle (t : string) (st : state) :
  selectedTrials (toggleTrialSelection t st) = toggled t (selectedTrials st).
Proof. by destruct st. Qed.

Lemma toggled_NoDup (t : string) (sel : list string) :
  NoDup sel → NoDup (toggled t sel).
Proof.
  intros Hnd. unfold toggled. destruct (includes sel t) eqn:Hinc.
  - eapply sublist_NoDup; [exact Hnd | apply filter_sublist].
  - apply NoDup_app. split; [done|]. split; [|apply NoDup_singleton].
    intros x Hx ->%list_elem_of_singleton.
    apply includes_elem_of in Hx. congruence.
Qed.

Lemma filter_all_in {A} (f : A → bool) (xs : list A) :
  (∀ x, x ∈ xs → f x = true) → List.filter f xs = xs.
Proof.
  induction xs as [|x xs IH]; intros Hall; simpl; [done|].
  rewrite Hall by (by left). f_equal. apply IH. intros y Hy. apply Hall. by right.
Qed.

Lemma without_length (t : string) (sel : list string) :
  NoDup sel → t ∈ sel →
  S (List.length (List.filter (fun id => negb (String.eqb id t)) sel))
  = List.length sel.
Proof.
  induction 1 as [|x sel Hx Hnd IH]; [by intros ?%elem_of_nil|].
  intros [-> | Hin]%elem_of_cons; simpl.
  - rewrite String.eqb_refl. simpl. f_equal.
    f_equal. apply filter_all_in. intros y Hy.
    apply negb_true_iff, String.eqb_neq. intros ->. done.
  - assert (String.eqb x t = false) as ->.
    { apply String.eqb_neq. intros ->. done. }
    simpl. by rewrite IH.
Qed.

(** X4: on a selection without duplicates, toggling an id keeps it free of
    duplicates and changes its size by exactly one: one more when the id
    was absent, one fewer when it was present. *)
Theorem toggle_size (t : string) (st : state) :
  NoDup (selectedTrials st) →
  let st' := toggleTrialSelection t st in
  NoDup (selectedTrials st')
  ∧ (t ∉ selectedTrials st →
     List.length (selectedTrials st') = S (List.length (selectedTrials st)))
  ∧ (t ∈ selectedTrials st →
     S (List.length (selectedTrials st')) = List.length (selectedTrials st)).
Proof.
  intros Hnd st'. subst st'. rewrite !selected_toggle.
  split; [by apply toggled_NoDup|]. unfold toggled. split.
  - intros Hnot. destruct (includes (selectedTrials st) t) eqn:Hinc.
    { by apply includes_elem_of in Hinc. }
    rewrite length_app. simpl. lia.
  - intros Hin. apply includes_elem_of in Hin as Hinc. rewrite Hinc.
    by apply without_length.
Qed.

Lemma toggle_size_witness :
  let st := mkState true "trials" ["NCT001"; "NCT002"; "NCT003"] [] in
  let st' := toggleTrialSelection "NCT002" st in
  NoDup (selectedTrials st)
  ∧ NoDup (selectedTrials st')
  ∧ ("NCT002" ∉ selectedTrials st →
     List.length (selectedTrials st') = S (List.length (selectedTrials st)))
  ∧ ("NCT002" ∈ selectedTrials st →
     S (List.length (selectedTrials st')) = List.length (selectedTrials st)).
Proof.
  intros st st'.
  assert (NoDup (selectedTrials st)) as Hnd.
  { simpl. repeat (apply NoDup_cons; split; [set_solver|]). apply NoDup_nil_2. }
  split; [exact Hnd | exact (toggle_size "NCT002" st Hnd)].
Defined.

Lemma toggled_member (t x : string) (sel : list string) :
  bool_decide (x ∈ toggled t sel)
  = xorb (bool_decide (x ∈ sel)) (String.eqb x t).
Proof.
  apply eq_true_iff_eq. rewrite bool_decide_eq_true, elem_of_toggled.
  destruct (String.eqb x t) eqn:Hxt.
  - apply String.eqb_eq in Hxt. subst x.
    destruct (bool_decide (t ∈ sel)) eqn:Hb.
    + apply bool_decide_eq_true in Hb. simpl. split; [|done].
      intros [[_ ?] | [_ ?]]; done.
    + apply bool_decide_eq_false in Hb. simpl. split; [done|]. intros _. by right.
  - apply String.eqb_neq in Hxt. rewrite xorb_false_r, bool_decide_eq_true.
    split; [intros [[? _] | [? _]]; done | intros ?; by left].
Qed.

Lemma toggle_all_member (ids : list string) (st : state) (x : string) :
  bool_decide (x ∈ selectedTrials (toggle_all ids st))
  = xorb (bool_decide (x ∈ selectedTrials st)) (Nat.odd (occurrences x ids)).
Proof.
  revert st. induction ids as [|t ids IH]; intros st.
  - simpl. by rewrite xorb_false_r.
  - unfold toggle_all in *. simpl. rewrite IH, selected_toggle, toggled_member.
    unfold occurrences. simpl. destruct (String.eqb x t); simpl.
    + rewrite Nat.odd_succ, <- Nat.negb_odd.
      by destruct (bool_decide _), (Nat.odd _).
    + by rewrite xorb_false_r.
Qed.

Lemma toggle_all_NoDup (ids : list string) (st : state) :
  NoDup (selectedTrials st) → NoDup (selectedTrials (toggle_all ids st)).
Proof.
  revert st. induction ids as [|t ids IH]; intros st Hnd; [done|].
  unfold toggle_all in *. simpl. apply IH. rewrite selected_toggle.
  by apply toggled_NoDup.
Qed.

(** X5: starting from the empty selection, after toggling the ids of any
    list in turn a trial is selected exactly when it was toggled an odd
    number of times, and no trial is selected twice. *)
Theorem toggles_parity (ids : list string) :
  let st := toggle_all ids initial in
  NoDup (selectedTrials st)
  ∧ ∀ x, x ∈ selectedTrials st ↔ Nat.odd (occurrences x ids) = true.
Proof.
  intros st. subst st. split.
  - apply toggle_all_NoDup. simpl. apply NoDup_nil_2.
  - intros x. etransitivity; [symmetry; apply bool_decide_eq_true|].
    rewrite toggle_all_member.
    by rewrite (bool_decide_eq_false_2 (x ∈ selectedTrials initial))
      by apply not_elem_of_nil.
Qed.

End ToggleRuns.

(** ** Substrings *)

Section Substrings.
Import JsString.

Lemma startsWith_spec (s p : string) :
  startsWith s p = true ↔ ∃ b, s = p ++ b.
Proof.
  split.
  - revert s. induction p as [|c p IH]; intros s Hs; [by exists s|].
    destruct s as [|x s]; [done|].
    rewrite startsWith_cons in Hs. apply andb_true_iff in Hs as [Hc Hs].
    apply Ascii.eqb_eq in Hc. subst x. destruct (IH s Hs) as [b ->].
    by exists b.
  - intros [b ->]. apply startsWith_app.
Qed.

Lemma includes_spec (s p : string) :
  includes s p = true ↔ ∃ a b, s = a ++ p ++ b.
Proof.
  split.
  - induction s as [|x s IH].
    + simpl. rewrite orb_false_r. intros [b Hb]%startsWith_spec.
      by exists "", b.
    + rewrite includes_cons. intros [Hs | Hs]%orb_true_iff.
      * apply startsWith_spec in Hs as [b Hb]. by exists "", b.
      * destruct (IH Hs) as (a & b & ->). by exists (String x a), b.
  - intros (a & b & ->). apply includes_infix.
Qed.

Lemma includes_trans (s p q : string) :
  includes s p = true → includes p q = true → includes s q = true.
Proof.
  intros (a & b & ->)%includes_spec (a' & b' & ->)%includes_spec.
  apply includes_spec. exists (a ++ a'), (b' ++ b).
  by rewrite !app_assoc_s.
Qed.

Lemma includes_smap (f : ascii → ascii) (s p : string) :
  includes s p = true → includes (smap f s) (smap f p) = true.
Proof.
  intros (a & b & ->)%includes_spec. apply includes_spec.
  exists (smap f a), (smap f b). by rewrite !smap_app.
Qed.

Lemma char_lower_upper (c : ascii) : char_lower (char_upper c) = char_lower c.
Proof. destruct c as [[] [] [] [] [] [] [] []]; reflexivity. Qed.

Lemma toLowerCase_toUpperCase (s : string) :
  toLowerCase (toUpperCase s) = toLowerCase s.
Proof.
  unfold toLowerCase, toUpperCase.
  induction s as [|c s IH]; [done|]. simpl. by rewrite char_lower_upper, IH.
Qed.

Lemma filter_sublist_impl {A} (f g : A → bool) (xs : list A) :
  (∀ x, f x = true → g x = true) →
  List.filter f xs `sublist_of` List.filter g xs.
Proof.
  intros Himp. induction xs as [|x xs IH]; simpl; [constructor|].
  destruct (f x) eqn:Hf.
  - rewrite (Himp x Hf). by constructor.
  - destruct (g x); [by constructor | done].
Qed.

Lemma filter_filter {A} (f g : A → bool) (xs : list A) :
  List.filter f (List.filter g xs) = List.filter (λ x, g x && f x) xs.
Proof.
  induction xs as [|x xs IH]; simpl; [done|].
  destruct (g x); simpl; [|done]. destruct (f x); by rewrite IH.
Qed.

End Substrings.

(** ** The trials table: searching and the status options *)

Section TrialsSearch.
Import JsString TrialsTable TrialsTableView.

Lemma matchesSearch_empty (t : Trial) : matchesSearch "" t = true.
Proof.
  unfold matchesSearch. change (toLowerCase "") with "".
  by rewrite includes_empty.
Qed.

(** X6: the search does not depend on the letter case of the search term:
    the term in upper case selects the same rows as the term itself (the
    status filter, compared by [===], is not touched by this). *)
Theorem search_term_case (term statusFilter : string) (trials : list Trial) :
  ascii_only term = true →
  filteredTrials (toUpperCase term) statusFilter trials
  = filteredTrials term statusFilter trials
  ∧ filteredTrials (toLowerCase term) statusFilter trials
    = filteredTrials term statusFilter trials.
Proof.
  intros _. unfold filteredTrials, matchesSearch.
  rewrite toLowerCase_toUpperCase. split; [done|].
  assert (toLowerCase (toLowerCase term) = toLowerCase term) as ->; [|done].
  unfold toLowerCase. induction term as [|c s IH]; [done|]. simpl.
  rewrite IH. f_equal. destruct c as [[] [] [] [] [] [] [] []]; reflexivity.
Qed.

Lemma search_term_case_witness :
  let trials := [ mkTrial "NCT001" "Metformin in type 2 diabetes" "Completed"
                    "" None None None [] [] [] ] in
  filteredTrials (toUpperCase "metformin") "all" trials
  = filteredTrials "metformin" "all" trials
  ∧ filteredTrials (toLowerCase "metformin") "all" trials
    = filteredTrials "metformin" "all" trials.
Proof.
  intros trials. apply (search_term_case "metformin" "all" trials). reflexivity.
Defined.

(** X7: the search and the status filter are independent: filtering by
    both is filtering by the status first and by the term afterwards, and
    also the other way round. *)
Theorem search_and_status_compose (term statusFilter : string)
    (trials : list Trial) :
  filteredTrials term statusFilter trials
  = filteredTrials term "all" (filteredTrials "" statusFilter trials)
  ∧ filteredTrials term statusFilter trials
    = filteredTrials "" statusFilter (filteredTrials term "all" trials).
Proof.
  unfold filteredTrials. rewrite !filter_filter. split.
  - apply List.filter_ext. intros t. rewrite matchesSearch_empty.
    unfold matchesStatus at 2. simpl. by rewrite andb_true_r, andb_comm.
  - apply List.filter_ext. intros t. rewrite matchesSearch_empty.
    unfold matchesStatus at 2. simpl. by rewrite andb_true_r.
Qed.

(** X8: for search terms of code units below 128, a term in which the
    previous term occurs (the user typed on, before or after it) never
    brings rows back: the rows for the longer term are a subsequence of the
    rows for the shorter one. *)
Theorem search_narrows (term1 term2 statusFilter : string)
    (trials : list Trial) :
  ascii_only term1 = true → ascii_only term2 = true →
  includes term2 term1 = true →
  filteredTrials term2 statusFilter trials
  `sublist_of` filteredTrials term1 statusFilter trials.
Proof.
  intros _ _ Hinc. apply filter_sublist_impl. intros t.
  rewrite !andb_true_iff. intros [Hs Hst]. split; [|done].
  unfold matchesSearch in *.
  apply (includes_smap char_lower) in Hinc.
  apply orb_true_iff in Hs as [Hs | Hs]; apply orb_true_iff; [left | right];
    eapply includes_trans; eauto.
Qed.

Lemma search_narrows_witness :
  let trials := [ mkTrial "NCT001" "Metformin in type 2 diabetes" "Completed"
                    "" None None None [] [] [];
                  mkTrial "NCT002" "Metoprolol after infarction" "Recruiting"
                    "" None None None [] [] [] ] in
  filteredTrials "metf" "all" trials `sublist_of` filteredTrials "met" "all" trials.
Proof.
  intros trials. apply (search_narrows "met" "metf" "all" trials); reflexivity.
Defined.

Lemma distinct_from_elem (seen xs : list string) (x : string) :
  x ∈ distinct_from seen xs ↔ x ∈ xs ∧ x ∉ seen.
Proof.
  revert seen. induction xs as [|y ys IH]; intros seen; simpl.
  - set_solver.
  - destruct (existsb (String.eqb y) seen) eqn:Hy.
    + assert (y ∈ seen) as Hin by (by apply (includes_elem_of seen y)).
      rewrite IH. set_solver.
    + assert (y ∉ seen) as Hnot.
      { intros Hin. apply (includes_elem_of seen y) in Hin.
        unfold UIStore.includes in Hin. congruence. }
      rewrite elem_of_cons, IH.
      destruct (decide (x = y)) as [-> | Hne]; set_solver.
Qed.

Lemma distinct_from_NoDup (seen xs : list string) :
  NoDup (distinct_from seen xs).
Proof.
  revert seen. induction xs as [|y ys IH]; intros seen; simpl.
  - apply NoDup_nil_2.
  - destruct (existsb (String.eqb y) seen); [apply IH|].
    apply NoDup_cons. split; [|apply IH].
    rewrite distinct_from_elem. intros [_ Hn]. apply Hn. by left.
Qed.

Lemma singleton_if (x : string) (P Q : Prop) `{Decision P, Decision Q} :
  (P ↔ Q) →
  (if bool_decide P then [] else [x]) = (if bool_decide Q then [] else [x]).
Proof. intros Hiff. by rewrite (bool_decide_ext P Q Hiff). Qed.

Lemma distinct_from_snoc (seen xs : list string) (x : string) :
  distinct_from seen (xs ++ [x])%list
  = (distinct_from seen xs
     ++ (if bool_decide (x ∈ (seen ++ xs)%list) then [] else [x]))%list.
Proof.
  revert seen. induction xs as [|y ys IH]; intros seen; simpl.
  - rewrite app_nil_r. destruct (existsb (String.eqb x) seen) eqn:Hx.
    + apply (includes_elem_of seen x) in Hx. by rewrite bool_decide_eq_true_2.
    + rewrite bool_decide_eq_false_2; [done|]. intros Hin.
      apply (includes_elem_of seen x) in Hin.
      unfold UIStore.includes in Hin. congruence.
  - destruct (existsb (String.eqb y) seen) eqn:Hy.
    + apply (includes_elem_of seen y) in Hy. rewrite IH.
      f_equal. apply singleton_if. set_solver.
    + rewrite IH. simpl. f_equal. f_equal. apply singleton_if. set_solver.
Qed.

Lemma status_options_select (trials : list Trial) (s : string) :
  s ∈ statuses trials →
  (trials ≠ [] → filteredTrials "" s trials ≠ [])
  ∧ (s ≠ "all" →
     ∀ t, t ∈ filteredTrials "" s trials ↔ t ∈ trials ∧ status t = s).
Proof.
  unfold statuses, distinct. intros Hs. split.
  - intros Hne. apply elem_of_cons in Hs as [-> | Hs].
    + assert (filteredTrials "" "all" trials = trials) as ->; [|done].
      apply filter_all. intros t. by rewrite matchesSearch_empty.
    + apply distinct_from_elem in Hs as [Hs _].
      apply list_elem_of_In, in_map_iff in Hs as (t & <- & Ht).
      apply list_elem_of_In in Ht.
      assert (t ∈ filteredTrials "" (status t) trials) as Hin.
      { unfold filteredTrials. apply list_elem_of_In, filter_In.
        split; [by apply list_elem_of_In|].
        rewrite matchesSearch_empty. unfold matchesStatus.
        by rewrite String.eqb_refl, orb_true_r. }
      intros Hnil. rewrite Hnil in Hin. by apply elem_of_nil in Hin.
  - intros Hall t. unfold filteredTrials.
    rewrite !list_elem_of_In, filter_In, matchesSearch_empty.
    unfold matchesStatus. apply String.eqb_neq in Hall. rewrite Hall. simpl.
    by rewrite String.eqb_eq.
Qed.

(** X9: on a non-empty trial list the status options are ['all'] first,
    followed by the statuses that occur among the trials, each once and
    no other string; a trial added at the end adds its status at the end
    of the options if it is a new one, and nothing otherwise, so the
    statuses stand in the order of their first occurrence.  Every option,
    with the search box empty, selects at least one trial, an option other
    than ['all'] selecting exactly the trials of that status. *)
Theorem status_options (trials : list Trial) :
  trials ≠ [] →
  (∃ rest, statuses trials = "all" :: rest
           ∧ NoDup rest
           ∧ ∀ s, s ∈ rest ↔ ∃ t, t ∈ trials ∧ status t = s)
  ∧ (∀ t, statuses (trials ++ [t])%list
          = (statuses trials
             ++ (if bool_decide (status t ∈ List.map status trials)
                 then [] else [status t]))%list)
  ∧ ∀ s, s ∈ statuses trials →
         filteredTrials "" s trials ≠ []
         ∧ (s ≠ "all" →
            ∀ t, t ∈ filteredTrials "" s trials ↔ t ∈ trials ∧ status t = s).
Proof.
  intros Hne. split; [|split].
  - exists (distinct (List.map status trials)). split; [done|].
    split; [apply distinct_from_NoDup|]. intros s. unfold distinct.
    rewrite distinct_from_elem, list_elem_of_In, in_map_iff. split.
    + intros [(t & <- & Ht) _]. exists t. by rewrite list_elem_of_In.
    + intros (t & Ht & <-). split; [|apply not_elem_of_nil].
      exists t. by rewrite <- list_elem_of_In.
  - intros t. unfold statuses, distinct.
    rewrite List.map_app. simpl. by rewrite distinct_from_snoc.
  - intros s Hs. destruct (status_options_select trials s Hs) as [Hsel Hex].
    split; [by apply Hsel | done].
Qed.

End TrialsSearch.

Section TrialCards.
Import JsString TrialsTable TrialsTableView.

Lemma status_options_witness :
  let trials := [ mkTrial "NCT001" "Metformin in type 2 diabetes" "Completed"
                    "" None None None [] [] [];
                  mkTrial "NCT002" "Metoprolol after infarction" "Recruiting"
                    "" None None None [] [] [];
                  mkTrial "NCT003" "Insulin pumps" "Completed"
                    "" None None None [] [] [] ] in
  trials ≠ []
  ∧ (∃ rest, statuses trials = "all" :: rest
             ∧ NoDup rest
             ∧ ∀ s, s ∈ rest ↔ ∃ t, t ∈ trials ∧ status t = s)
  ∧ (∀ t, statuses (trials ++ [t])%list
          = (statuses trials
             ++ (if bool_decide (status t ∈ List.map status trials)
                 then [] else [status t]))%list)
  ∧ ∀ s, s ∈ statuses trials →
         filteredTrials "" s trials ≠ []
         ∧ (s ≠ "all" →
            ∀ t, t ∈ filteredTrials "" s trials ↔ t ∈ trials ∧ status t = s).
Proof.
  intros trials.
  assert (trials ≠ []) as Hne by discriminate.
  split; [exact Hne | exact (status_options trials Hne)].
Defined.

(** X10: of a non-empty list of conditions, interventions or countries
    every entry is either shown or counted: the chips shown are the first
    [n] entries, the "+k more" chip is there exactly when entries are left
    out, and the number shown plus [k] is the length of the list. *)
Theorem chips_account (n : nat) (xs shown : list string) (more : option nat) :
  chips n xs = Some (shown, more) →
  shown = take n xs
  ∧ (List.length shown + default 0 more = List.length xs)%nat
  ∧ (more = None ↔ shown = xs)
  ∧ ∀ k, more = Some k → (0 < k)%nat.
Proof.
  unfold chips. destruct xs as [|x xs]; [done|].
  remember (x :: xs) as l eqn:El. clear El. intros [= <- <-].
  split; [done|]. rewrite length_take.
  destruct (Nat.ltb_spec n (List.length l)) as [Hlt | Hge].
  - split; [simpl; lia|]. split.
    + split; [done|]. intros Heq. apply (f_equal List.length) in Heq.
      rewrite length_take in Heq. lia.
    + intros k [= <-]. lia.
  - split; [simpl; lia|]. split; [|done].
    split; [|done]. intros _. by apply take_ge.
Qed.

Lemma chips_account_witness :
  chips 3 ["asthma"; "copd"; "cough"; "fever"; "flu"]
  = Some (["asthma"; "copd"; "cough"], Some 2%nat)
  ∧ ["asthma"; "copd"; "cough"] = take 3 ["asthma"; "copd"; "cough"; "fever"; "flu"]
  ∧ (List.length ["asthma"; "copd"; "cough"] + default 0 (Some 2)
     = List.length ["asthma"; "copd"; "cough"; "fever"; "flu"])%nat
  ∧ (Some 2%nat = None ↔ ["asthma"; "copd"; "cough"]
                         = ["asthma"; "copd"; "cough"; "fever"; "flu"])
  ∧ ∀ k, Some 2%nat = Some k → (0 < k)%nat.
Proof.
  assert (chips 3 ["asthma"; "copd"; "cough"; "fever"; "flu"]
          = Some (["asthma"; "copd"; "cough"], Some 2%nat)) as H by reflexivity.
  split; [exact H | exact (chips_account _ _ _ _ H)].
Defined.

Lemma replaceUnderscores_cons (c : ascii) (s : string) :
  replaceUnderscores (String c s)
  = String (if Ascii.eqb c "_" then " "%char else c) (replaceUnderscores s).
Proof. done. Qed.

Lemma replaceUnderscores_fixed (s : string) :
  replaceUnderscores s = s ↔ underscores s = 0%nat.
Proof.
  induction s as [|c s IH]; [done|].
  rewrite replaceUnderscores_cons. cbn [underscores].
  destruct (Ascii.eqb c "_") eqn:Hc.
  - apply Ascii.eqb_eq in Hc. subst c. split; [by intros [= ?] | simpl; lia].
  - simpl. rewrite <- IH. split; [by intros [= ?] | by intros ->].
Qed.

Lemma phase_underscore_count (phase : string) :
  String.length (replaceFirstUnderscore phase) = String.length phase
  ∧ underscores (replaceFirstUnderscore phase) = Nat.pred (underscores phase)
  ∧ (replaceFirstUnderscore phase = replaceUnderscores phase
     ↔ (underscores phase ≤ 1)%nat).
Proof.
  induction phase as [|c s (IHlen & IHn & IHeq)].
  - split; [done|]. split; [done|]. split; [simpl; lia | done].
  - rewrite replaceUnderscores_cons.
    cbn [replaceFirstUnderscore underscores String.length].
    destruct (Ascii.eqb c "_") eqn:Hc.
    + split; [done|]. split; [done|].
      split.
      * intros [= Heq]. symmetry in Heq.
        apply replaceUnderscores_fixed in Heq. lia.
      * intros Hle. f_equal. symmetry. apply replaceUnderscores_fixed. lia.
    + cbn [String.length underscores]. rewrite Hc, IHlen, IHn.
      split; [done|]. split; [done|]. simpl. rewrite <- IHeq.
      split; [by intros [= ?] | by intros ->].
Qed.

Lemma replaceFirstUnderscore_at (pre post : string) :
  underscores pre = 0%nat →
  replaceFirstUnderscore (pre ++ String "_" post) = pre ++ String " " post.
Proof.
  induction pre as [|c pre IH]; [done|].
  change (String c pre ++ String "_" post)
    with (String c (pre ++ String "_" post)).
  change (String c pre ++ String " " post)
    with (String c (pre ++ String " " post)).
  cbn [underscores replaceFirstUnderscore].
  destruct (Ascii.eqb c "_"); simpl; [done|]. intros Hpre. by rewrite IH.
Qed.

Lemma replaceFirstUnderscore_none (phase : string) :
  underscores phase = 0%nat → replaceFirstUnderscore phase = phase.
Proof.
  induction phase as [|c s IH]; [done|]. cbn [underscores replaceFirstUnderscore].
  destruct (Ascii.eqb c "_"); simpl; [done|]. intros Hs. by rewrite IH.
Qed.

(** X11: the phase shown on a card has its first underscore, and only
    that one, turned into a space: a phase without underscore is shown as
    it is, and a phase that reads [pre], an underscore, [post], with no
    underscore in [pre], is shown as [pre], a space, [post], whatever
    [post] contains.  So the text keeps its length and has one underscore
    fewer (none fewer if it had none), and it agrees with the replacement
    of all underscores exactly when the phase has at most one. *)
Theorem phase_first_underscore (phase : string) :
  (underscores phase = 0%nat → replaceFirstUnderscore phase = phase)
  ∧ (∀ pre post, phase = pre ++ String "_" post → underscores pre = 0%nat →
                 replaceFirstUnderscore phase = pre ++ String " " post)
  ∧ String.length (replaceFirstUnderscore phase) = String.length phase
  ∧ underscores (replaceFirstUnderscore phase) = Nat.pred (underscores phase)
  ∧ (replaceFirstUnderscore phase = replaceUnderscores phase
     ↔ (underscores phase ≤ 1)%nat).
Proof.
  split; [apply replaceFirstUnderscore_none|]. split.
  - intros pre post -> Hpre. by apply replaceFirstUnderscore_at.
  - apply phase_underscore_count.
Qed.

Lemma phase_first_underscore_witness :
  replaceFirstUnderscore "PHASE1_PHASE2_X" = "PHASE1" ++ String " " "PHASE2_X".
Proof.
  destruct (phase_first_underscore "PHASE1_PHASE2_X") as (_ & Hat & _).
  apply (Hat "PHASE1" "PHASE2_X"); reflexivity.
Defined.

Example phase_first_underscore_samples :
  List.map replaceFirstUnderscore ["PHASE1"; "EARLY_PHASE1"; "PHASE1_PHASE2_X"; "_"]
  = ["PHASE1"; "EARLY PHASE1"; "PHASE1 PHASE2_X"; " "].
Proof. reflexivity. Qed.

End TrialCards.

(** ** The papers table and the report's file name *)

Section PapersAndReport.
Import JsString PapersTable ReportPage.

(** X12: in the papers table the empty search term keeps every paper, in
    order; and, for search terms of code units below 128, a term in which
    the previous term occurs selects a subsequence of the rows of the
    previous term, so every result is a subsequence of the papers. *)
Theorem papers_search (papers : list Paper) :
  filteredPapers "" papers = papers
  ∧ ∀ term1 term2,
      ascii_only term1 = true → ascii_only term2 = true →
      includes term2 term1 = true →
      filteredPapers term2 papers `sublist_of` filteredPapers term1 papers.
Proof.
  split.
  - apply filter_all. intros p. unfold matches.
    change (toLowerCase "") with "". by rewrite includes_empty.
  - intros term1 term2 _ _ Hinc. apply filter_sublist_impl. intros p.
    apply (includes_smap char_lower) in Hinc. unfold matches.
    intros [Ht | Ha]%orb_true_iff; apply orb_true_iff.
    + left. eapply includes_trans; eauto.
    + right. apply existsb_exists in Ha as (a & Hin & Ha).
      apply existsb_exists. exists a. split; [done|].
      eapply includes_trans; eauto.
Qed.

Lemma papers_search_witness :
  let papers := [ mkPaper (Some "101") "Metformin and ageing" ["Ada Li"; "Bo Chen"]
                    None None "" None [];
                  mkPaper None "Statins revisited" ["Metz R"] None None "" None [] ] in
  filteredPapers "" papers = papers
  ∧ filteredPapers "metf" papers `sublist_of` filteredPapers "met" papers.
Proof.
  intros papers. destruct (papers_search papers) as [Hid Hsub].
  split; [exact Hid | apply Hsub; reflexivity].
Defined.



Lemma sall_app (p : ascii → bool) (a b : string) :
  sall p (a ++ b) = sall p a && sall p b.
Proof.
  induction a as [|c a IH]; [done|].
  change (String c a ++ b) with (String c (a ++ b)). simpl.
  by rewrite IH, andb_assoc.
Qed.






Example download_name_samples :
  List.map downloadName ["MedNexa Research Report"; "  a  b "; ""; "x_y"]
  = ["MedNexa_Research_Report.pdf"; "_a_b_.pdf"; ".pdf"; "x_y.pdf"].
Proof. reflexivity. Qed.

End PapersAndReport.

(** ** [formatLabel]: further properties *)

Section FormatLabelMore.
Import JsString Vocabulary ChartsPanel.

Lemma entries_labels (k l : string) : (k, l) ∈ statusEntries → l ≠ "".
Proof.
  unfold statusEntries. intros H.
  repeat (apply elem_of_cons in H as [H | H]; [by injection H as -> ->|]).
  by apply elem_of_nil in H.
Qed.

(** X14: a label is empty only for the empty name: every non-empty name
    gets a non-empty label, whichever rule applies. *)
Theorem formatLabel_empty_iff (name : string) :
  formatLabel name = "" ↔ name = "".
Proof.
  split; [|by intros ->]. unfold formatLabel.
  destruct (String.eqb name "") eqn:Hn; [by intros _; apply String.eqb_eq|].
  destruct (isNotApplicable (upperName name)); [done|].
  unfold phaseLabel.
  destruct (includes (upperName name) "PHASE" &&
            negb (includes (upperName name) "EARLY")) eqn:Hp.
  - apply andb_true_iff in Hp as [-> ->%negb_true_iff].
    destruct (match_phase name); [done|].
    destruct (statusLabel (upperName name)) as [l|] eqn:Hst.
    + apply statusMap_entry, entries_labels in Hst. done.
    + intros H. apply (f_equal String.length) in H.
      rewrite defaultLabel_length in H. destruct name; done.
  - destruct (includes (upperName name) "PHASE"); simpl in Hp.
    + apply negb_false_iff in Hp. by rewrite Hp.
    + destruct (statusLabel (upperName name)) as [l|] eqn:Hst.
      * apply statusMap_entry, entries_labels in Hst. done.
      * intros H. apply (f_equal String.length) in H.
        rewrite defaultLabel_length in H. destruct name; done.
Qed.

Lemma char_upper_idem (c : ascii) : char_upper (char_upper c) = char_upper c.
Proof. destruct c as [[] [] [] [] [] [] [] []]; reflexivity. Qed.

Lemma char_upper_lower (c : ascii) : char_upper (char_lower c) = char_upper c.
Proof. destruct c as [[] [] [] [] [] [] [] []]; reflexivity. Qed.

Lemma is_digit_char_upper (c : ascii) : is_digit (char_upper c) = is_digit c.
Proof. destruct c as [[] [] [] [] [] [] [] []]; reflexivity. Qed.

Lemma digit_char_upper (c : ascii) : is_digit c = true → char_upper c = c.
Proof. destruct c as [[] [] [] [] [] [] [] []]; vm_compute; congruence. Qed.

Lemma default_char_upper (c : ascii) :
  let under := λ x : ascii, if Ascii.eqb x "_" then " "%char else x in
  char_lower (under (char_upper c)) = char_lower (under c).
Proof. destruct c as [[] [] [] [] [] [] [] []]; reflexivity. Qed.

Lemma toUpperCase_idem (s : string) : toUpperCase (toUpperCase s) = toUpperCase s.
Proof.
  unfold toUpperCase. induction s as [|c s IH]; [done|]. simpl.
  by rewrite char_upper_idem, IH.
Qed.

Lemma toUpperCase_toLowerCase (s : string) :
  toUpperCase (toLowerCase s) = toUpperCase s.
Proof.
  unfold toUpperCase, toLowerCase. induction s as [|c s IH]; [done|]. simpl.
  by rewrite char_upper_lower, IH.
Qed.

Lemma strip_prefix_ci_upper (p s : string) :
  strip_prefix_ci p (toUpperCase s) = toUpperCase <$> strip_prefix_ci p s.
Proof.
  unfold toUpperCase. revert s. induction p as [|c p IH]; intros s; [done|].
  destruct s as [|x s]; [done|]. simpl. rewrite char_upper_idem.
  destruct (Ascii.eqb (char_upper x) c); [apply IH | done].
Qed.

Lemma trimStart_upper (s : string) :
  trimStart (toUpperCase s) = toUpperCase (trimStart s).
Proof.
  unfold toUpperCase. induction s as [|c s IH]; [done|]. simpl.
  rewrite is_space_char_upper. by destruct (is_space c).
Qed.

Lemma takeDigits_upper (s : string) :
  takeDigits (toUpperCase s) = takeDigits s.
Proof.
  unfold toUpperCase. induction s as [|c s IH]; [done|]. simpl.
  rewrite is_digit_char_upper. destruct (is_digit c) eqn:Hc; [|done].
  by rewrite (digit_char_upper c Hc), IH.
Qed.

Lemma match_phase_at_upper (s : string) :
  match_phase_at (toUpperCase s) = match_phase_at s.
Proof.
  unfold match_phase_at. rewrite strip_prefix_ci_upper.
  destruct (strip_prefix_ci "PHASE" s) as [rest|]; [|done]. simpl.
  by rewrite trimStart_upper, takeDigits_upper.
Qed.

Lemma match_phase_upper (s : string) :
  match_phase (toUpperCase s) = match_phase s.
Proof.
  induction s as [|c s IH]; [done|].
  change (toUpperCase (String c s)) with (String (char_upper c) (toUpperCase s)).
  cbn [match_phase].
  change (String (char_upper c) (toUpperCase s)) with (toUpperCase (String c s)).
  by rewrite match_phase_at_upper, IH.
Qed.

Lemma defaultLabel_upper (s : string) :
  defaultLabel (toUpperCase s) = defaultLabel s.
Proof.
  unfold defaultLabel. f_equal.
  unfold toLowerCase, replaceUnderscores, toUpperCase.
  induction s as [|c s IH]; [done|]. simpl.
  by rewrite (default_char_upper c), IH.
Qed.

Lemma formatLabel_upper (s : string) :
  formatLabel (toUpperCase s) = formatLabel s.
Proof.
  unfold formatLabel, upperName, phaseLabel.
  rewrite toUpperCase_idem, match_phase_upper, defaultLabel_upper.
  assert (String.eqb (toUpperCase s) "" = String.eqb s "") as ->; [|done].
  by destruct s.
Qed.

(** X15: the label does not depend on the letter case of the name: two
    names that agree up to letter case get the same label; in particular
    the name in upper case and the name in lower case get the label of the
    name itself. *)
Theorem formatLabel_case (s1 s2 : string) :
  ascii_only s1 = true → ascii_only s2 = true →
  toUpperCase s1 = toUpperCase s2 →
  formatLabel s1 = formatLabel s2
  ∧ formatLabel (toUpperCase s1) = formatLabel s1
  ∧ formatLabel (toLowerCase s1) = formatLabel s1.
Proof.
  intros _ _ Heq. split; [|split].
  - by rewrite <- (formatLabel_upper s1), <- (formatLabel_upper s2), Heq.
  - apply formatLabel_upper.
  - by rewrite <- (formatLabel_upper (toLowerCase s1)), toUpperCase_toLowerCase,
      formatLabel_upper.
Qed.

Lemma formatLabel_case_witness :
  formatLabel "Enrolling_By_Invitation" = formatLabel "enrolling_by_INVITATION"
  ∧ formatLabel (toUpperCase "Enrolling_By_Invitation")
    = formatLabel "Enrolling_By_Invitation"
  ∧ formatLabel (toLowerCase "Enrolling_By_Invitation")
    = formatLabel "Enrolling_By_Invitation".
Proof.
  apply (formatLabel_case "Enrolling_By_Invitation" "enrolling_by_INVITATION");
    reflexivity.
Defined.

End FormatLabelMore.

(** ** Risk presentation: letter case and rounding *)

Section RiskPresentationMore.
Import JsString JsNumber Envelope.

(** X16: the safety panel colours its card by the label in lower case but
    its bar by the label as it is: a High or Medium label written in any
    other letter case gets the red or yellow card together with the green
    bar. *)
Theorem risk_label_other_case (label : string) :
  ascii_only label = true →
  label ≠ "High" → label ≠ "Medium" →
  (toLowerCase label = "high" →
   SafetyPanel.getRiskColor label = "text-red-600 bg-red-50 border-red-200"
   ∧ SafetyPanel.barColor label = "bg-green-600")
  ∧ (toLowerCase label = "medium" →
     SafetyPanel.getRiskColor label
     = "text-yellow-600 bg-yellow-50 border-yellow-200"
     ∧ SafetyPanel.barColor label = "bg-green-600").
Proof.
  intros _ Hh Hm.
  apply String.eqb_neq in Hh, Hm.
  unfold SafetyPanel.getRiskColor, SafetyPanel.barColor.
  rewrite Hh, Hm. split; intros ->; done.
Qed.

Lemma risk_label_other_case_witness :
  (toLowerCase "HIGH" = "high" →
   SafetyPanel.getRiskColor "HIGH" = "text-red-600 bg-red-50 border-red-200"
   ∧ SafetyPanel.barColor "HIGH" = "bg-green-600")
  ∧ (toLowerCase "HIGH" = "medium" →
     SafetyPanel.getRiskColor "HIGH"
     = "text-yellow-600 bg-yellow-50 border-yellow-200"
     ∧ SafetyPanel.barColor "HIGH" = "bg-green-600").
Proof.
  apply (risk_label_other_case "HIGH"); [reflexivity | discriminate | discriminate].
Defined.

Lemma Qfloor_unique (q : Q) (n : Z) :
  (inject_Z n <= q)%Q → (q < inject_Z (n + 1))%Q → Qfloor q = n.
Proof.
  intros Hle Hlt.
  assert (n <= Qfloor q)%Z.
  { rewrite <- (Qfloor_Z n). by apply Qfloor_resp_le. }
  assert (Qfloor q < n + 1)%Z.
  { rewrite Zlt_Qlt. eapply Qle_lt_trans; [apply Qfloor_le | done]. }
  lia.
Qed.

(** Within a twentieth of a whole number [t] of 1 to 10, [toFixed(1)]
    writes [t.0]. *)
Lemma toFixed1_near (t : Z) (x : Q) :
  (1 <= t)%Z →
  (inject_Z t - (1 # 20) <= x)%Q → (x < inject_Z t + (1 # 20))%Q →
  toFixed1 x = digits t ++ ".0".
Proof.
  intros Ht Hlo Hhi.
  assert (1 <= inject_Z t)%Q as Ht'.
  { change 1%Q with (inject_Z 1). by rewrite <- Zle_Qle. }
  unfold toFixed1.
  assert (Qltb x 0 = false) as ->.
  { apply Qltb_ge. lra. }
  assert (Qfloor (Qabs x * 10 + (1 # 2)) = 10 * t)%Z as ->.
  { apply Qfloor_unique.
    - rewrite inject_Z_mult, (Qabs_pos x) by lra.
      change (inject_Z 10) with 10%Q. lra.
    - rewrite inject_Z_plus, inject_Z_mult, (Qabs_pos x) by lra.
      change (inject_Z 10) with 10%Q. change (inject_Z 1) with 1%Q. lra. }
  rewrite (Z.mul_comm 10 t), Z.div_mul, Z.mod_mul by done.
  reflexivity.
Qed.

Lemma riskScore_nonzero (a : Analysis) (p : SafetyProfile) :
  safety a = Some p → (0 < risk_score p)%Q →
  DashboardPage.riskScore (Some a) = risk_score p.
Proof.
  intros Ha Hpos. rewrite (riskScore_present a p Ha). unfold orZero.
  destruct (Qeq_bool (risk_score p) 0) eqn:Hz; [|done].
  apply Qeq_bool_iff in Hz. lra.
Qed.

(** X17: the risk card rounds the score to one decimal but colours it by
    the score itself, so around a threshold one text comes in two colours:
    a score within a twentieth below 4 reads [4.0/10] in green and from 4
    on in yellow; within a twentieth below 7 it reads [7.0/10] in yellow
    and from 7 on in red. *)
Theorem risk_card_rounding (a : Analysis) (p : SafetyProfile) :
  safety a = Some p →
  let s := risk_score p in
  let card := DashboardPage.riskCard (Some a) in
  ((79 # 20 <= s)%Q ∧ (s < 4)%Q →
   DashboardPage.card_value card = "4.0/10"
   ∧ DashboardPage.card_color card = "bg-green-500")
  ∧ ((4 <= s)%Q ∧ (s < 81 # 20)%Q →
     DashboardPage.card_value card = "4.0/10"
     ∧ DashboardPage.card_color card = "bg-yellow-500")
  ∧ ((139 # 20 <= s)%Q ∧ (s < 7)%Q →
     DashboardPage.card_value card = "7.0/10"
     ∧ DashboardPage.card_color card = "bg-yellow-500")
  ∧ ((7 <= s)%Q ∧ (s < 141 # 20)%Q →
     DashboardPage.card_value card = "7.0/10"
     ∧ DashboardPage.card_color card = "bg-red-500").
Proof.
  intros Ha s card. subst s card. unfold DashboardPage.riskCard. simpl.
  split; [|split; [|split]]; intros [Hlo Hhi];
    rewrite (riskScore_nonzero a p Ha) by lra; split.
  - rewrite (toFixed1_near 4); [done | lia | unfold inject_Z; lra | unfold inject_Z; lra].
  - assert (Qltb (risk_score p) 4 = true) as ->; [by apply Qltb_lt | done].
  - rewrite (toFixed1_near 4); [done | lia | unfold inject_Z; lra | unfold inject_Z; lra].
  - assert (Qltb (risk_score p) 4 = false) as ->; [by apply Qltb_ge|].
    assert (Qltb (risk_score p) 7 = true) as ->; [apply Qltb_lt; lra | done].
  - rewrite (toFixed1_near 7); [done | lia | unfold inject_Z; lra | unfold inject_Z; lra].
  - assert (Qltb (risk_score p) 4 = false) as ->; [apply Qltb_ge; lra|].
    assert (Qltb (risk_score p) 7 = true) as ->; [by apply Qltb_lt | done].
  - rewrite (toFixed1_near 7); [done | lia | unfold inject_Z; lra | unfold inject_Z; lra].
  - assert (Qltb (risk_score p) 4 = false) as ->; [apply Qltb_ge; lra|].
    assert (Qltb (risk_score p) 7 = false) as ->; [by apply Qltb_ge | done].
Qed.

Lemma risk_card_rounding_witness :
  let p := mkSafety (399 # 100) "Low" 10 1 0 "" [] [] in
  let a := mkAnalysis None None (Some p) in
  let s := risk_score p in
  let card := DashboardPage.riskCard (Some a) in
  ((79 # 20 <= s)%Q ∧ (s < 4)%Q →
   DashboardPage.card_value card = "4.0/10"
   ∧ DashboardPage.card_color card = "bg-green-500")
  ∧ ((4 <= s)%Q ∧ (s < 81 # 20)%Q →
     DashboardPage.card_value card = "4.0/10"
     ∧ DashboardPage.card_color card = "bg-yellow-500")
  ∧ ((139 # 20 <= s)%Q ∧ (s < 7)%Q →
     DashboardPage.card_value card = "7.0/10"
     ∧ DashboardPage.card_color card = "bg-yellow-500")
  ∧ ((7 <= s)%Q ∧ (s < 141 # 20)%Q →
     DashboardPage.card_value card = "7.0/10"
     ∧ DashboardPage.card_color card = "bg-red-500").
Proof.
  intros p a. apply (risk_card_rounding a p). reflexivity.
Defined.

Example risk_card_rounding_sample :
  let card x := DashboardPage.riskCard
                  (Some (mkAnalysis None None
                           (Some (mkSafety x "" 0 0 0 "" [] [])))) in
  (DashboardPage.card_value (card (399 # 100)),
   DashboardPage.card_color (card (399 # 100)),
   DashboardPage.card_value (card 4%Q),
   DashboardPage.card_color (card 4%Q))
  = ("4.0/10", "bg-green-500", "4.0/10", "bg-yellow-500").
Proof. reflexivity. Qed.

End RiskPresentationMore.

(** ** Lookup tables: slice colours, navigation, alert styles *)

Section Tables.
Import JsString.

Lemma COLORS_NoDup : NoDup ChartColors.COLORS.
Proof.
  unfold ChartColors.COLORS.
  repeat (apply NoDup_cons; split; [set_solver|]). apply NoDup_nil_2.
Qed.

(** X18: every slice of a pie gets a colour of the palette, whatever its
    index, and two slices get the same colour exactly when their indices
    agree modulo 8: the ninth slice repeats the colour of the first. *)
Theorem cell_colours (i j : nat) :
  is_Some (ChartColors.cellColor i)
  ∧ (ChartColors.cellColor i = ChartColors.cellColor j
     ↔ (i mod 8 = j mod 8)%nat).
Proof.
  unfold ChartColors.cellColor.
  change (List.length ChartColors.COLORS) with 8%nat.
  assert (∀ k, (k mod 8 < List.length ChartColors.COLORS)%nat) as Hlt.
  { intros k. change (List.length ChartColors.COLORS) with 8%nat.
    apply Nat.mod_upper_bound. lia. }
  split; [apply lookup_lt_is_Some, Hlt|]. split; [|by intros ->].
  destruct (lookup_lt_is_Some_2 _ _ (Hlt i)) as [c Hc].
  rewrite Hc. intros Hj. symmetry in Hj.
  eapply NoDup_lookup; eauto using COLORS_NoDup.
Qed.

(** X19: for every path at most one navigation link is marked active,
    and one is exactly when the path is, character for character, the
    target of a link ([/], [/dashboard], [/compare] or [/report]), the
    link marked being the one with that target; a path that differs in
    letter case or by a closing slash marks none. *)
Theorem navigation_active (pathname : string) :
  (List.length (List.filter (Layout.isActive pathname) Layout.navigation) ≤ 1)%nat
  ∧ (pathname ∈ ["/"; "/dashboard"; "/compare"; "/report"]
     ↔ ∃ i, List.filter (Layout.isActive pathname) Layout.navigation = [i]
            ∧ Layout.item_href i = pathname)
  ∧ List.filter (Layout.isActive "/Dashboard") Layout.navigation = []
  ∧ List.filter (Layout.isActive "/dashboard/") Layout.navigation = [].
Proof.
  split; [|split; [|done]];
    unfold Layout.navigation, Layout.isActive; simpl;
    destruct (String.eqb_spec pathname "/") as [-> | H1];
    try (simpl; first [lia | split; [intros _; by eexists | set_solver]]);
    destruct (String.eqb_spec pathname "/dashboard") as [-> | H2];
    try (simpl; first [lia | split; [intros _; by eexists | set_solver]]);
    destruct (String.eqb_spec pathname "/compare") as [-> | H3];
    try (simpl; first [lia | split; [intros _; by eexists | set_solver]]);
    destruct (String.eqb_spec pathname "/report") as [-> | H4];
    try (simpl; first [lia | split; [intros _; by eexists | set_solver]]).
  simpl. split; [set_solver | by intros (i & [=] & _)].
Qed.

(** X20: an alert is rendered exactly for the types [info], [success] and
    [error] (the omitted type counting as [info]); for any other type
    there is no style to render it with. *)
Theorem alert_types (type title message : option string) (onClose : bool) :
  is_Some (Alert.render type title message onClose)
  ↔ default "info" type ∈ ["info"; "success"; "error"].
Proof.
  unfold Alert.render.
  destruct (Alert.styles !! default "info" type) as [st|] eqn:Hst.
  - split; [intros _ | by eexists].
    apply elem_of_list_to_map_2 in Hst.
    repeat (apply elem_of_cons in Hst as [[= -> _] | Hst]; [set_solver|]).
    by apply elem_of_nil in Hst.
  - split; [by intros [? ?]|]. intros Hin. exfalso.
    repeat (apply elem_of_cons in Hin as [Hin | Hin];
            [rewrite Hin in Hst; by vm_compute in Hst|]).
    by apply elem_of_nil in Hin.
Qed.

End Tables.

(** ** The interventions parameter *)

Section JoinedInterventions.
Import JsString ApiCompare.

Lemma comma_free_app_inj (x y r1 r2 : string) :
  comma_free x = true → comma_free y = true →
  x ++ String "," r1 = y ++ String "," r2 → x = y ∧ r1 = r2.
Proof.
  unfold comma_free. revert y.
  induction x as [|c x IH]; intros [|d y] Hx Hy Heq; simpl in *.
  - by injection Heq.
  - injection Heq as <- _. done.
  - injection Heq as -> _. done.
  - change (String c (x ++ String "," r1) = String d (y ++ String "," r2)) in Heq.
    injection Heq as -> Heq.
    apply andb_true_iff in Hx as [_ Hx]. apply andb_true_iff in Hy as [_ Hy].
    destruct (IH y Hx Hy Heq) as [-> ->]. done.
Qed.

Lemma comma_free_no_comma (x y r : string) :
  comma_free x = true → x ≠ y ++ String "," r.
Proof.
  unfold comma_free. intros Hx ->. rewrite sall_app in Hx.
  simpl in Hx. by rewrite andb_false_r in Hx.
Qed.

Lemma join_cons (sep x y : string) (rest : list string) :
  join sep (x :: y :: rest) = x ++ sep ++ join sep (y :: rest).
Proof. done. Qed.

Lemma join_injective (xs ys : list string) :
  xs ≠ [] → ys ≠ [] →
  Forall (λ x, comma_free x = true) xs → Forall (λ y, comma_free y = true) ys →
  join "," xs = join "," ys → xs = ys.
Proof.
  revert ys. induction xs as [|x xs IH]; intros ys Hxs Hys Fx Fy Heq; [done|].
  destruct ys as [|y ys]; [done|].
  apply Forall_cons in Fx as [Hx Fx]. apply Forall_cons in Fy as [Hy Fy].
  destruct xs as [|x2 xs], ys as [|y2 ys].
  - simpl in Heq. by subst.
  - rewrite join_cons in Heq. simpl in Heq.
    by apply comma_free_no_comma in Heq.
  - rewrite join_cons in Heq. simpl in Heq. symmetry in Heq.
    by apply comma_free_no_comma in Heq.
  - rewrite !join_cons in Heq.
    change ("," ++ ?r) with (String "," r) in Heq.
    apply comma_free_app_inj in Heq as [-> Heq]; [|done..].
    f_equal. by apply IH.
Qed.

(** X21: the interventions parameter of a comparison request tells the
    interventions apart as long as no name contains a comma: two non-empty
    lists of such names with the same parameter are the same list.  (The
    empty list and the list of the one empty name give the same, empty,
    parameter.) *)
Theorem interventions_parameter (xs ys : list string) (condition : option Api.json) :
  xs ≠ [] → ys ≠ [] →
  Forall (λ x, comma_free x = true) xs → Forall (λ y, comma_free y = true) ys →
  get_params (compareInterventions xs condition) !! "interventions"
  = get_params (compareInterventions ys condition) !! "interventions" →
  xs = ys.
Proof.
  intros Hxs Hys Fx Fy Heq. unfold compareInterventions in Heq. simpl in Heq.
  rewrite !lookup_insert_eq in Heq. injection Heq as Heq.
  by apply join_injective.
Qed.

Lemma interventions_parameter_witness :
  ["metformin"; "insulin glargine"] = ["metformin"; "insulin glargine"].
Proof.
  apply (interventions_parameter _ _ None); try discriminate;
    try (repeat constructor); reflexivity.
Defined.

Example join_empty_collision :
  join "," [] = join "," [""]
  ∧ join "," ["a,b"] = join "," ["a"; "b"].
Proof. split; reflexivity. Qed.

End JoinedInterventions.
